(** * spoiled: the particle renderer and its clock controller

    A shallow embedding of the two source files of the repository:

    - the paint worklet (the deterministic generator [lcgrand], the
      envelope [trapezoidalWave], the wrap [cycleBounds] and the [paint]
      loop of the worklet class), and
    - the controller class [SpoilerPainter] ([update], [hide], [reveal],
      [destroy], the frame callback and the animation handle).

    JavaScript numbers are embedded as exact rationals [Q]: rounding,
    NaN and the infinities are outside the model.  Where the source relies
    on one of them (a division by zero giving [Infinity], [Math.min()] of
    no argument) the embedding spells the case out.  The 32-bit integer
    arithmetic of the generator is embedded on [Z] with its wrap-around
    written out. *)

From Stdlib Require Import ZArith QArith Qround Qabs Qminmax Lia Lqa List Bool.
From stdpp Require Import gmap strings.

Local Open Scope Q_scope.

(** ** JavaScript number operations *)

Module JS.

(** [x < y] and [x > y] as the booleans the source branches on. *)
Definition ltb (x y : Q) : bool := negb (Qle_bool y x).
Definition gtb (x y : Q) : bool := ltb y x.
Definition leb (x y : Q) : bool := Qle_bool x y.
Definition geb (x y : Q) : bool := Qle_bool y x.

(** Truthiness of a number: every number but zero (NaN is outside the model). *)
Definition truthy (x : Q) : bool := negb (Qeq_bool x 0).

(** Truncation toward zero, the integer part [%] and [parseInt] use. *)
Definition trunc (q : Q) : Z := if Qle_bool 0 q then Qfloor q else Qceiling q.

(** [x % n]: the remainder has the sign of the dividend.  For [n = 0]
    JavaScript gives NaN; the callers below only divide by positive [n]. *)
Definition rem (x n : Q) : Q := x - n * inject_Z (trunc (x / n)).

Definition Math_floor (x : Q) : Z := Qfloor x.
Definition Math_round (x : Q) : Z := Qfloor (x + (1 # 2)).
Definition Math_min (x y : Q) : Q := Qmin x y.
Definition Math_abs (x : Q) : Q := Qabs x.

(** [ToInt32]: reduction modulo 2^32 into the signed range. *)
Definition ToInt32 (z : Z) : Z := ((z + 2 ^ 31) mod 2 ^ 32 - 2 ^ 31)%Z.

(** [Math.imul(a, b)]: the low 32 bits of the product, signed. *)
Definition Math_imul (a b : Z) : Z := ToInt32 (a * b).

(** [a & b] on numbers: both operands go through [ToInt32]. *)
Definition bitand (a b : Z) : Z := Z.land (ToInt32 a) (ToInt32 b).

(** [x.toFixed(3)], kept as the signed count of thousandths it prints:
    the nearest one, the larger in absolute value on a tie. *)
Definition toFixed3 (x : Q) : Z :=
  let n := Qfloor (Qabs x * 1000 + (1 # 2)) in
  if ltb x 0 then (- n)%Z else n.

End JS.

(** ** The channel: custom properties of the element

    The controller writes custom properties on the element's style and the
    worklet reads them back through [props].  A value is kept in the shape
    of the template that printed it. *)

Module Css.

Inductive size : Type :=
| Auto                      (* "auto" *)
| Px (q : Q)                (* `${q}px` *)
| PxInfinity.               (* "Infinitypx", from [Math.min()] of no argument *)

Inductive value : Type :=
| Fixed3 (thousandths : Z)  (* [x.toFixed(3)] *)
| Seconds (q : Q)           (* `${q}s` *)
| Gap (a b : Z)             (* `${a}px ${b}px`, and `0 ${b}px` with [a = 0] *)
| Num (q : Q)               (* [String(q)] *)
| Flag (b : bool)           (* [String(b)] *)
| Accent (h s l : Q)        (* `${h}deg ${s}% ${l}%` *)
| Paint (tile : bool) (ws hs : size)
                            (* `paint(spoiler) ${repeatAndPosition} / ${ws} ${hs}` *)
| Keyword (s : string).     (* any other text: a colour, "initial", "var(--fallback)" *)

End Css.

(** ** The worklet *)

Module Worklet.

(** *** Generator

    The closure [lcgrand(seed)] keeps [seed] as mutable state; a draw is a
    state transformer on it. *)
Definition Rand (A : Type) : Type := Z -> A * Z.

Definition ret {A} (a : A) : Rand A := fun s => (a, s).
Definition bind {A B} (m : Rand A) (k : A -> Rand B) : Rand B :=
  fun s => let (a, s') := m s in k a s'.

Declare Scope rand_scope.
Delimit Scope rand_scope with rand.
Notation "'let*' x ':=' m 'in' k" := (bind m (fun x => k))
  (at level 10, x name, m at level 100, k at level 200) : rand_scope.

(** [seed = Math.imul(214013, seed) + 2531011]; the sum is an ordinary
    number, wrapped again by the next [Math.imul]. *)
Definition lcg_next (seed : Z) : Z := (JS.Math_imul 214013 seed + 2531011)%Z.

(** The 31 bits a draw is scaled by. *)
Definition lcg_bits (seed : Z) : Z := JS.bitand (JS.Math_imul 48271 seed) 0x7fffffff.

Definition lcgrand (a b : Q) : Rand Q := fun seed =>
  let seed' := lcg_next seed in
  (a + (JS.Math_abs (b - a) * inject_Z (lcg_bits seed')) / inject_Z 0x7fffffff, seed').

Definition lerp (a b t : Q) : Q := a + (b - a) * t.

(** *** Host mathematics

    [Math.PI], [Math.cos], [Math.sin] and [Math.sqrt] have no rational
    counterpart; the embedding is parametric in them. *)
Class HostMath : Type := {
  Math_PI : Q;
  Math_cos : Q -> Q;
  Math_sin : Q -> Q;
  Math_sqrt : Q -> Q;
}.

Definition pol2vec `{HostMath} (l a : Q) : Q * Q := (l * Math_cos a, l * Math_sin a).
Definition vecmag `{HostMath} (v : Q * Q) : Q :=
  let (x, y) := v in Math_sqrt (x * x + y * y).
Definition vecnorm `{HostMath} (v : Q * Q) : Q * Q :=
  let (x, y) := v in
  let l := vecmag (x, y) in
  if Qeq_bool l 0 then (0, 0) else (x / l, y / l).

(** *** Envelope and wrap *)

Definition trapezoidalWave (t l n : Q) : Q :=
  if JS.ltb t (1 # 5) then t / (1 # 5)
  else if JS.gtb t (n - l) then (n - t) / l
  else 1.

Definition _cycle (x n : Q) : Q := JS.rem (JS.rem x n + n) n.
Definition _mirror (x n r : Q) : Q :=
  if JS.ltb x r then n + x else if JS.gtb x (n - r) then x - n else x.

Definition cycleBounds (p : Q * Q) (wh : Q * Q) (r : Q) : list (Q * Q) :=
  let (x, y) := p in
  let (w, h) := wh in
  let (tx, ty) := (_cycle x w, _cycle y h) in
  [ (tx, ty); (_mirror tx w r, _mirror ty h r) ].

(** *** Reading the properties *)

Definition getCSSVar (props : gmap string Css.value) (name : string) : option Css.value :=
  props !! name.


(** Where the worklet runs: [_IS_WORKLET] and the global [devicePixelRatio]. *)
Record Env : Type := {
  IS_WORKLET : bool;
  devicePixelRatio : Q;
}.

(** [parseFloat(getCSSVar(props, "--t")) || 0].  The controller publishes
    the clock with [toFixed(3)]; anything else does not parse and gives 0. *)
Definition read_worldt (props : gmap string Css.value) : Q :=
  match getCSSVar props "--t" with
  | Some (Css.Fixed3 n) => inject_Z n / 1000
  | _ => 0
  end.

(** [(getCSSVar(props, "--gap") || "0px 0px").split(" ").map(parseFloat)];
    the controller only writes the two-length form under this name. *)
Definition read_gap (props : gmap string Css.value) : Q * Q :=
  match getCSSVar props "--gap" with
  | Some (Css.Gap a b) => (inject_Z a, inject_Z b)
  | _ => (0, 0)
  end.

(** [(getCSSVar(props, "--accent") || "0 0% 70%").split(" ")]: hue and
    saturation are copied, the third token goes through [parseInt]. *)
Definition read_accent (props : gmap string Css.value) : Q * Q * Z :=
  match getCSSVar props "--accent" with
  | Some (Css.Accent h s l) => (h, s, JS.trunc l)
  | _ => (0, 0, 70%Z)
  end.

(** *** The locals of [paint] *)

Record Locals : Type := {
  worldt : Q;
  dprx : Q;
  accent : Q * Q * Z;
  frict : Q;
  vmin : Q;
  vmax : Q;
  width : Q;
  height : Q;
  vgap : Q;
  hgap : Q;
  density : Q;
  n : Q;
  sizedev : Q;
}.

Definition locals (env : Env) (size : Q * Q) (props : gmap string Css.value) : Locals :=
  let dprx := if IS_WORKLET env then 1 else devicePixelRatio env in
  let width := fst size / dprx in
  let height := snd size / dprx in
  let density := 6 in
  {| worldt := read_worldt props;
     dprx := dprx;
     accent := read_accent props;
     frict := 0;
     vmin := 2;
     vmax := 12;
     width := width;
     height := height;
     vgap := fst (read_gap props);
     hgap := snd (read_gap props);
     density := density;
     n := JS.Math_min 4000 ((width * height) / density);
     sizedev := if JS.gtb (devicePixelRatio env) 1 then 1 # 2 else 0 |}.

(** *** One particle *)

Inductive Shape : Type := square | circle.

(** The values one iteration of the loop draws, before time enters. *)
Record Particle : Type := {
  x0 : Q;
  y0 : Q;
  v0mag : Q;
  size0 : Q;
  lightness : Z;
  v0 : Q * Q;
  shape : Shape;
  lifetime : Q;
  respawn : Q;
  phase : Q;
}.

Local Open Scope rand_scope.

Definition particle `{HostMath} (L : Locals) : Rand Particle :=
  let* x0 := lcgrand (vgap L) (width L - vgap L) in
  let* y0 := lcgrand (hgap L) (height L - hgap L) in
  let* v0mag := lcgrand (vmin L) (vmax L) in
  let* size0 := lcgrand 1 (1 + sizedev L) in
  let _l := inject_Z (snd (accent L)) in
  let* u := lcgrand 0 1 in
  let lightness := JS.Math_floor (lerp (_l * (1 # 2)) _l u) in
  let* a := lcgrand 0 (Math_PI * 2) in
  let v0 := pol2vec v0mag a in
  let* c := lcgrand 0 1 in
  let shape := if JS.gtb c (1 # 2) then square else circle in
  let* lifetime := lcgrand (3 # 10) (3 # 2) in
  let* respawn := lcgrand 0 1 in
  let* phase := lcgrand 0 (lifetime + respawn) in
  ret {| x0 := x0; y0 := y0; v0mag := v0mag; size0 := size0;
         lightness := lightness; v0 := v0; shape := shape;
         lifetime := lifetime; respawn := respawn; phase := phase |}.

(** [Math.min(lifetime, (worldt + phase) % (lifetime + respawn))] *)
Definition local_age (L : Locals) (p : Particle) : Q :=
  JS.Math_min (lifetime p) (JS.rem (worldt L + phase p) (lifetime p + respawn p)).

(** What is put on the canvas. *)
Inductive Path : Type :=
| Rect (x y w h : Q)
| Arc (x y r a0 a1 : Q).

Record Fill : Type := {
  hue : Q;
  saturation : Q;
  light : Z;
  alpha_percent : Z;     (* [Math.round(alpha * 100)] *)
  path : Path;
}.

Inductive Op : Type :=
| ClearRect (x y w h : Q)
| FillPath (f : Fill).

(** The time-dependent values of a particle that is drawn. *)
Record RenderState : Type := {
  age : Q;
  pos : Q * Q;
  visibility : Q;
  alpha : Q;
  size : Q;
  draws : list (Q * Q);
}.

(** The body of the loop after the draws; [None] is [continue]. *)
Definition render_state `{HostMath} (L : Locals) (p : Particle) : option RenderState :=
  let t := local_age L p in
  if JS.geb t (lifetime p) then None
  else
    let (vx0norm, vy0norm) := vecnorm (v0 p) in
    let (vx0, vy0) := v0 p in
    let vx := vx0 - (1 # 2) * frict L * t * vx0norm in
    let vy := vy0 - (1 # 2) * frict L * t * vy0norm in
    let x := x0 p + vx * t in
    let y := y0 p + vy * t in
    let visibility := trapezoidalWave t (1 # 2) (lifetime p) in
    let alpha := 1 - t / lifetime p in
    let size := size0 p * visibility in
    Some {| age := t; pos := (x, y); visibility := visibility; alpha := alpha;
            size := size;
            draws := cycleBounds (x, y) (width L, height L) (size / 2) |}.

Definition draw_at `{HostMath} (L : Locals) (p : Particle) (r : RenderState) (w : Q * Q) : Op :=
  let (wx, wy) := w in
  FillPath
    {| hue := fst (fst (accent L));
       saturation := snd (fst (accent L));
       light := lightness p;
       alpha_percent := JS.Math_round (alpha r * 100);
       path := match shape p with
               | square => Rect (dprx L * wx) (dprx L * wy) (dprx L * size r) (dprx L * size r)
               | circle => Arc (dprx L * wx) (dprx L * wy) ((dprx L * size r) / 2) 0 (Math_PI * 2)
               end |}.

Definition particle_ops `{HostMath} (L : Locals) (p : Particle) : list Op :=
  match render_state L p with
  | None => []
  | Some r => map (draw_at L p r) (draws r)
  end.

(** *** The loop

    [for (let i = 0; i < n; ++i)] with a fractional bound [n] runs for the
    integers below it: [iterations] of them.  One iteration makes its ten
    draws and then either draws the particle or skips it; the iteration is
    recorded with the particle it drew so that both can be spoken about. *)
Definition iterations (L : Locals) : nat := Z.to_nat (Qceiling (n L)).

Definition iteration `{HostMath} (L : Locals) : Rand (Particle * list Op) :=
  let* p := particle L in
  ret (p, particle_ops L p).

Fixpoint loop `{HostMath} (L : Locals) (k : nat) : Rand (list (Particle * list Op)) :=
  match k with
  | O => ret []
  | S k' =>
      let* it := iteration L in
      let* its := loop L k' in
      ret (it :: its)
  end.

Definition base_seed : Z := 19234.

Definition paint_trace `{HostMath} (env : Env) (size : Q * Q) (props : gmap string Css.value)
  : list (Particle * list Op) :=
  let L := locals env size props in
  fst (loop L (iterations L) base_seed).

Definition paint `{HostMath} (env : Env) (size : Q * Q) (props : gmap string Css.value) : list Op :=
  ClearRect 0 0 (fst size) (snd size) :: concat (map snd (paint_trace env size props)).

End Worklet.


(** ** The controller *)

Module Controller.

(** Module-level facts of the page: [isCSSHoudiniSupported],
    [prefersReducedMotion], whether [IntersectionObserver] exists, and the
    colour library's [colord(c).toHsl()]. *)
Record Host : Type := {
  isCSSHoudiniSupported : bool;
  prefersReducedMotion : bool;
  hasIntersectionObserver : bool;
  colord_toHsl : string -> Q * Q * Q;
}.

(** What the layout queries of [update] return: whether the computed
    [display] is "inline", the bounding rectangle, and the heights of the
    client rectangles. *)
Record Layout : Type := {
  display_inline : bool;
  rect_width : Q;
  rect_height : Q;
  line_heights : list Q;
}.

Inductive NumOrBool : Type := IsNum (q : Q) | IsBool (b : bool).
Inductive Fallback : Type := FallbackText (s : string) | FallbackFalse.

(** [CtorOptions]; [None] is an omitted field. *)
Record Options : Type := {
  fps : option Q;
  gap : option NumOrBool;
  density : option Q;
  mimicWords : option bool;
  accentColor : option string;
  fallback : option Fallback;
  forceFallback : option bool;
  onlyInViewport : option bool;
}.

Definition no_options : Options :=
  {| fps := None; gap := None; density := None; mimicWords := None;
     accentColor := None; fallback := None; forceFallback := None;
     onlyInViewport := None |}.

Definition DEFAULT_fps : Q := 24.
Definition DEFAULT_gap : NumOrBool := IsNum 6.
Definition DEFAULT_density : Q := 12 # 100.
Definition DEFAULT_mimicWords : bool := false.
Definition DEFAULT_fallback : Fallback := FallbackText "black".

Definition DEFAULT_FPS : Q := 24.
Definition BLOCK_MAX_TILE : Q := 293.
Definition INLINE_MAX_TILE : Q := 333.
Definition DEFAULT_FADE_DURATION : Q := 3 # 2.
Definition GAP_RATIO : Q := 8.

Definition Number_ (v : NumOrBool) : Q :=
  match v with IsNum q => q | IsBool true => 1 | IsBool false => 0 end.

(** The private fields of the object, the element's inline style, and the
    host's list of animation frame requests with its next handle. *)
Record State : Type := {
  maxFPS : Q;
  forceFallback_ : bool;
  wasDestroyed : bool;
  isHidden : bool;
  _fadeDuration : Q;
  _t : Q;
  t0 : Q;
  _tstop : option Q;
  raf : option positive;
  observer : bool;
  style : gmap string Css.value;
  next_handle : positive;
  pending : list positive;
}.

Definition with_maxFPS v st :=
  {| maxFPS := v; forceFallback_ := forceFallback_ st; wasDestroyed := wasDestroyed st;
     isHidden := isHidden st; _fadeDuration := _fadeDuration st; _t := _t st; t0 := t0 st;
     _tstop := _tstop st; raf := raf st; observer := observer st; style := style st;
     next_handle := next_handle st; pending := pending st |}.
Definition with_forceFallback v st :=
  {| maxFPS := maxFPS st; forceFallback_ := v; wasDestroyed := wasDestroyed st;
     isHidden := isHidden st; _fadeDuration := _fadeDuration st; _t := _t st; t0 := t0 st;
     _tstop := _tstop st; raf := raf st; observer := observer st; style := style st;
     next_handle := next_handle st; pending := pending st |}.
Definition with_wasDestroyed v st :=
  {| maxFPS := maxFPS st; forceFallback_ := forceFallback_ st; wasDestroyed := v;
     isHidden := isHidden st; _fadeDuration := _fadeDuration st; _t := _t st; t0 := t0 st;
     _tstop := _tstop st; raf := raf st; observer := observer st; style := style st;
     next_handle := next_handle st; pending := pending st |}.
Definition with_isHidden v st :=
  {| maxFPS := maxFPS st; forceFallback_ := forceFallback_ st; wasDestroyed := wasDestroyed st;
     isHidden := v; _fadeDuration := _fadeDuration st; _t := _t st; t0 := t0 st;
     _tstop := _tstop st; raf := raf st; observer := observer st; style := style st;
     next_handle := next_handle st; pending := pending st |}.
Definition with_fadeDuration v st :=
  {| maxFPS := maxFPS st; forceFallback_ := forceFallback_ st; wasDestroyed := wasDestroyed st;
     isHidden := isHidden st; _fadeDuration := v; _t := _t st; t0 := t0 st;
     _tstop := _tstop st; raf := raf st; observer := observer st; style := style st;
     next_handle := next_handle st; pending := pending st |}.
Definition with_t v st :=
  {| maxFPS := maxFPS st; forceFallback_ := forceFallback_ st; wasDestroyed := wasDestroyed st;
     isHidden := isHidden st; _fadeDuration := _fadeDuration st; _t := v; t0 := t0 st;
     _tstop := _tstop st; raf := raf st; observer := observer st; style := style st;
     next_handle := next_handle st; pending := pending st |}.
Definition with_t0 v st :=
  {| maxFPS := maxFPS st; forceFallback_ := forceFallback_ st; wasDestroyed := wasDestroyed st;
     isHidden := isHidden st; _fadeDuration := _fadeDuration st; _t := _t st; t0 := v;
     _tstop := _tstop st; raf := raf st; observer := observer st; style := style st;
     next_handle := next_handle st; pending := pending st |}.
Definition with_tstop v st :=
  {| maxFPS := maxFPS st; forceFallback_ := forceFallback_ st; wasDestroyed := wasDestroyed st;
     isHidden := isHidden st; _fadeDuration := _fadeDuration st; _t := _t st; t0 := t0 st;
     _tstop := v; raf := raf st; observer := observer st; style := style st;
     next_handle := next_handle st; pending := pending st |}.
Definition with_raf v st :=
  {| maxFPS := maxFPS st; forceFallback_ := forceFallback_ st; wasDestroyed := wasDestroyed st;
     isHidden := isHidden st; _fadeDuration := _fadeDuration st; _t := _t st; t0 := t0 st;
     _tstop := _tstop st; raf := v; observer := observer st; style := style st;
     next_handle := next_handle st; pending := pending st |}.
Definition with_observer v st :=
  {| maxFPS := maxFPS st; forceFallback_ := forceFallback_ st; wasDestroyed := wasDestroyed st;
     isHidden := isHidden st; _fadeDuration := _fadeDuration st; _t := _t st; t0 := t0 st;
     _tstop := _tstop st; raf := raf st; observer := v; style := style st;
     next_handle := next_handle st; pending := pending st |}.
Definition with_style v st :=
  {| maxFPS := maxFPS st; forceFallback_ := forceFallback_ st; wasDestroyed := wasDestroyed st;
     isHidden := isHidden st; _fadeDuration := _fadeDuration st; _t := _t st; t0 := t0 st;
     _tstop := _tstop st; raf := raf st; observer := observer st; style := v;
     next_handle := next_handle st; pending := pending st |}.
Definition with_frames h l st :=
  {| maxFPS := maxFPS st; forceFallback_ := forceFallback_ st; wasDestroyed := wasDestroyed st;
     isHidden := isHidden st; _fadeDuration := _fadeDuration st; _t := _t st; t0 := t0 st;
     _tstop := _tstop st; raf := raf st; observer := observer st; style := style st;
     next_handle := h; pending := l |}.

(** [el.style.setProperty] and [el.style.removeProperty]. *)
Definition setProperty (name : string) (v : Css.value) (st : State) : State :=
  with_style (<[name := v]> (style st)) st.
Definition removeProperty (name : string) (st : State) : State :=
  with_style (delete name (style st)) st.

(** *** Accessors that also publish *)

Definition set_tstop (value : option Q) (st : State) : State :=
  let st := with_tstop value st in
  match value with
  | Some v => setProperty "--t-stop" (Css.Fixed3 (JS.toFixed3 v)) st
  | None => removeProperty "--t-stop" st
  end.

Definition set_t (value : Q) (st : State) : State :=
  setProperty "--t" (Css.Fixed3 (JS.toFixed3 value)) (with_t value st).

Definition set_fadeDuration (value : Q) (st : State) : State :=
  setProperty "--fade" (Css.Seconds value) (with_fadeDuration value st).

(** *** The host's frame requests *)

Definition requestAnimationFrame (st : State) : State :=
  let h := next_handle st in
  with_raf (Some h) (with_frames (Pos.succ h) (pending st ++ [h]) st).

Definition cancelAnimationFrame (h : positive) (st : State) : State :=
  with_frames (next_handle st) (filter (fun h' => negb (Pos.eqb h' h)) (pending st)) st.

(** *** The animation loop *)

(** [this.#tstop && this.t > this.#tstop + this.#fadeDuration], as the
    truth value the next line negates. *)
Definition shouldStop (st : State) : bool :=
  match _tstop st with
  | None => false
  | Some ts => JS.truthy ts && JS.gtb (_t st) (ts + _fadeDuration st)
  end.

(** [dt < 1000 / this.maxFPS]; [1000 / 0] is [Infinity], above every [dt]. *)
Definition below_interval (dt fps : Q) : bool :=
  if Qeq_bool fps 0 then true else JS.ltb dt (1000 / fps).

Definition frame (now : Q) (st : State) : State :=
  if wasDestroyed st then st
  else
    let stop := shouldStop st in
    let st := if JS.gtb (maxFPS st) 0 && negb stop then requestAnimationFrame st else st in
    let dt := now - t0 st in
    if JS.gtb dt 0 && below_interval dt (maxFPS st) then st
    else with_t0 now (set_t (_t st + dt / 1000) st).

(** [now] is what [performance.now()] answers. *)
Definition startAnimation (now : Q) (st : State) : State :=
  frame now (with_t0 now st).

Definition stopAnimation (st : State) : State :=
  match raf st with
  | Some h => with_raf None (cancelAnimationFrame h st)
  | None => st
  end.

Definition isAnimating (st : State) : bool :=
  match raf st with Some _ => true | None => false end.

(** The host runs the callbacks requested before this frame; each of them
    is [frame]. *)
Definition animation_frame (now : Q) (st : State) : State :=
  fold_left (fun s _ => frame now s) (pending st) (with_frames (next_handle st) [] st).

(** *** Results of the operations that can throw *)

Inductive result (A : Type) : Type :=
| Ok (a : A)
| Throw (message : string).
Arguments Ok {A} a.
Arguments Throw {A} message.

(** *** [update] *)

Definition useBackgroundStyle (ws hs : Css.size) (tile : bool) (st : State) : State :=
  setProperty "background" (Css.Paint tile ws hs) st.

(** [Math.min(...heights)]: [None] is the [Infinity] of no argument. *)
Definition min_height (heights : list Q) : option Q :=
  match heights with
  | [] => None
  | h :: hs => Some (fold_left Qmin hs h)
  end.

Definition update (host : Host) (layout : Layout) (o : Options) (st : State) : result State :=
  let fps := default DEFAULT_fps (fps o) in
  let gap := default DEFAULT_gap (gap o) in
  let mimicWords := default DEFAULT_mimicWords (mimicWords o) in
  let density := default DEFAULT_density (density o) in
  let fallback := default DEFAULT_fallback (fallback o) in
  let forceFallback := default false (forceFallback o) in
  if wasDestroyed st then Throw "Painter has been destroyed and can't be used again."
  else
    let st := with_maxFPS (if prefersReducedMotion host then 0 else fps) st in
    let st := with_forceFallback forceFallback st in
    if negb (isCSSHoudiniSupported host) || forceFallback then
      Ok (setProperty "--fallback"
            (match fallback with
             | FallbackText s => if String.eqb s "" then Css.Keyword "initial" else Css.Keyword s
             | FallbackFalse => Css.Keyword "initial"
             end) st)
    else
      let isBlockElement := negb (display_inline layout) in
      let st := useBackgroundStyle Css.Auto Css.Auto false st in
      let mimicWords := if isBlockElement then false else mimicWords in
      let st :=
        if isBlockElement then
          let w := rect_width layout in
          let h := rect_height layout in
          if JS.gtb (w * h) (BLOCK_MAX_TILE * BLOCK_MAX_TILE) then
            useBackgroundStyle (Css.Px (JS.Math_min w BLOCK_MAX_TILE))
                               (Css.Px (JS.Math_min h BLOCK_MAX_TILE)) true st
          else
            let capGap :=
              JS.Math_floor (JS.Math_min (JS.Math_min (Number_ gap) (w / GAP_RATIO)) (h / GAP_RATIO)) in
            setProperty "--gap" (Css.Gap capGap capGap) st
        else
          let heightOfLine := min_height (line_heights layout) in
          let st :=
            useBackgroundStyle (Css.Px INLINE_MAX_TILE)
              (match heightOfLine with Some h => Css.Px h | None => Css.PxInfinity end) true st in
          let capGap :=
            JS.Math_floor (match heightOfLine with
                           | Some h => JS.Math_min (h / GAP_RATIO) (Number_ gap)
                           | None => Number_ gap
                           end) in
          setProperty "--gap" (Css.Gap 0 capGap) st in
      let st := setProperty "--words" (Css.Flag mimicWords) st in
      let st := setProperty "--density" (Css.Num density) st in
      Ok (match accentColor o with
          | Some c =>
              if String.eqb c "" then removeProperty "--accent" st
              else let '(h, s, l) := colord_toHsl host c in
                   setProperty "--accent" (Css.Accent h s l) st
          | None => removeProperty "--accent" st
          end).

(** *** [hide] and [reveal] *)

(** The [animate] field of [TransitionOptions]; it defaults to [true]. *)
Definition parseFadeDuration (host : Host) (value : NumOrBool) : Q :=
  if prefersReducedMotion host then 0
  else match value with
       | IsBool true => DEFAULT_FADE_DURATION
       | v => Number_ v
       end.

Definition hide (host : Host) (animate : option NumOrBool) (now : Q) (st : State) : State :=
  let animate := default (IsBool true) animate in
  let st := with_isHidden true st in
  if negb (isCSSHoudiniSupported host) || forceFallback_ st then
    setProperty "background" (Css.Keyword "var(--fallback)") st
  else
    let st := set_fadeDuration (parseFadeDuration host animate) st in
    let st := set_tstop None st in
    let st := set_t 0 st in
    startAnimation now st.

Definition reveal (host : Host) (animate : option NumOrBool) (st : State) : State :=
  let animate := default (IsBool true) animate in
  let st := with_isHidden false st in
  if negb (isCSSHoudiniSupported host) || forceFallback_ st then
    removeProperty "background" st
  else
    let duration := parseFadeDuration host animate in
    let st := set_fadeDuration duration st in
    let st := set_tstop (Some (_t st)) st in
    if JS.leb duration 0 then stopAnimation st else st.

(** *** [destroy], the constructor and the viewport observer *)

Definition destroy (st : State) : State :=
  let st := with_wasDestroyed true st in
  let st := stopAnimation st in
  let st :=
    fold_left (fun s prop => removeProperty prop s)
      ["background"; "--t"; "--t-stop"; "--fade"; "--gap"; "--words"; "--density"]%string st in
  if observer st then with_observer false st else st.

(** The field initialisers, on an element whose inline style is [css] and
    a host whose next request handle is [h]. *)
Definition fresh (css : gmap string Css.value) (h : positive) (l : list positive) : State :=
  {| maxFPS := DEFAULT_FPS; forceFallback_ := false; wasDestroyed := false;
     isHidden := false; _fadeDuration := 0; _t := 0; t0 := 0; _tstop := None;
     raf := None; observer := false; style := css; next_handle := h; pending := l |}.

Definition watchInViewport (host : Host) (st : State) : State :=
  if hasIntersectionObserver host then with_observer true st else st.

Definition construct (host : Host) (layout : Layout) (o : Options)
    (css : gmap string Css.value) (h : positive) (l : list positive) : result State :=
  let st := set_tstop (Some 0) (fresh css h l) in
  match update host layout o st with
  | Throw m => Throw m
  | Ok st =>
      Ok (match onlyInViewport o with
          | Some true => watchInViewport host st
          | _ => st
          end)
  end.


(** *** The public operations, as calls *)

Inductive Call : Type :=
| CallUpdate (layout : Layout) (o : Options)
| CallHide (animate : option NumOrBool) (now : Q)
| CallReveal (animate : option NumOrBool).

Definition invoke (host : Host) (c : Call) (st : State) : result State :=
  match c with
  | CallUpdate layout o => update host layout o st
  | CallHide animate now => Ok (hide host animate now st)
  | CallReveal animate => Ok (reveal host animate st)
  end.

End Controller.

(** ** Concrete inputs

    States and inputs on which the embedding is run in the examples. *)

Module Scenario.
Import Worklet.

(** A page with the paint API, animations allowed. *)
Definition page : Controller.Host :=
  {| Controller.isCSSHoudiniSupported := true;
     Controller.prefersReducedMotion := false;
     Controller.hasIntersectionObserver := true;
     Controller.colord_toHsl := fun _ => (0, 0, 70) |}.

(** A block element of 300 by 100. *)
Definition block_300x100 : Controller.Layout :=
  {| Controller.display_inline := false;
     Controller.rect_width := 300;
     Controller.rect_height := 100;
     Controller.line_heights := [100] |}.

(** [new SpoilerPainter(el)] on it, with no frame request outstanding. *)
Definition constructed : Controller.State :=
  match Controller.construct page block_300x100 Controller.no_options ∅ 1 [] with
  | Controller.Ok st => st
  | Controller.Throw _ => Controller.fresh ∅ 1 []
  end.

(** [hide()] when [performance.now()] is 0. *)
Definition hidden : Controller.State := Controller.hide page None 0 constructed.

(** The host's frame at 500 ms: the clock reads 0.5. *)
Definition running : Controller.State := Controller.animation_frame 500 hidden.

(** [reveal({ animate: 1.0 })]: StopMark 0.5, fade 1. *)
Definition revealing : Controller.State :=
  Controller.reveal page (Some (Controller.IsNum 1)) running.

(** The host's frame at 2500 ms: the clock reads 2.5, past 0.5 + 1. *)
Definition fading : Controller.State := Controller.animation_frame 2500 revealing.

(** The host's frame at 2600 ms. *)
Definition faded : Controller.State := Controller.animation_frame 2600 fading.

(** A rational stand-in for the host mathematics, to run examples; the
    theorems hold for every interpretation of it. *)
Definition rational_math : HostMath :=
  {| Math_PI := 355 # 113;
     Math_cos := fun _ => 1;
     Math_sin := fun _ => 0;
     Math_sqrt := fun x => x |}.

(** A worklet on a screen of pixel ratio 2. *)
Definition worklet_env : Env := {| IS_WORKLET := true; devicePixelRatio := 2 |}.

(** A 300 by 100 surface painted with no property set. *)
Definition bare_locals : Locals := locals worklet_env (300, 100) ∅.


(** The first particle of a paint. *)
Definition first_particle : Particle := fst (@particle rational_math bare_locals base_seed).

End Scenario.

(** ** The specification's wording

    Properties as the specification words them, kept apart from the
    embedding above so that the two can be compared. *)

Module Stated.
Import Worklet.

(** "float in [a,b)" *)
Definition draw_in_half_open (seed : Z) (a b : Q) : Prop :=
  a <= fst (lcgrand a b seed) < b.

(** A seed whose next draw has all 31 bits set. *)
Definition full_seed : Z := 1078560870.

(** "transitions to Idle once [clock > StopMark + FadeDuration]": no
    further tick, [isAnimating] false, channel [t-stop] cleared. *)
Definition auto_stop (now : Q) (st : Controller.State) : Prop :=
  forall ts,
    Controller._tstop st = Some ts ->
    0 < Controller._fadeDuration st ->
    ts + Controller._fadeDuration st < Controller._t st ->
    let st' := Controller.frame now st in
    Controller.pending st' = Controller.pending st /\
    Controller.isAnimating st' = false /\
    Controller.style st' !! "--t-stop"%string = None.

(** The frame callbacks the host runs, one after the other, at the given
    times. *)
Definition frames (nows : list Q) (st : Controller.State) : Controller.State :=
  fold_left (fun s now => Controller.frame now s) nows st.

(** The frames of the host, each running the callbacks requested before
    it, at the given times. *)
Definition host_frames (nows : list Q) (st : Controller.State) : Controller.State :=
  fold_left (fun s now => Controller.animation_frame now s) nows st.

(** "if the wrapped coordinate lies within [mirrorRadius] of an edge" *)
Definition near_edge (c n r : Q) : bool := JS.ltb c r || JS.gtb c (n - r).

(** "exactly two draw positions are returned, differing by exactly the
    surface dimension on the relevant axis; otherwise exactly one" *)
Definition wrap_positions (x y w h r : Q) : Prop :=
  let ps := cycleBounds (x, y) (w, h) r in
  let tx := _cycle x w in
  let ty := _cycle y h in
  if near_edge tx w r || near_edge ty h r then
    exists p1 p2, ps = [p1; p2] /\
      (near_edge tx w r = true -> Qabs (fst p2 - fst p1) == w) /\
      (near_edge ty h r = true -> Qabs (snd p2 - snd p1) == h)
  else length ps = 1%nat.


(** The generator state at the start of iteration [i] of the loop: ten
    steps of the recurrence per earlier particle, from the base seed. *)
Definition particle_seed (i : nat) : Z := Nat.iter (10 * i) lcg_next base_seed.

(** The draw made after [k] earlier draws by a generator in state [s]. *)
Definition nth_draw (k : nat) (a b : Q) (s : Z) : Q :=
  fst (lcgrand a b (Nat.iter k lcg_next s)).

(** "linear fade-in over the first 0.2 (normalized) time units, full
    visibility in the middle, linear fade-out over the final
    [lifetime - 0.2] window": the fade-out window read as a length, the
    last [lifetime - 0.2] time units before [lifetime]. *)
Definition envelope_window_length (t lifetime : Q) : Q :=
  if JS.ltb t (1 # 5) then t / (1 # 5)
  else if JS.gtb t (lifetime - (lifetime - (1 # 5))) then (lifetime - t) / (lifetime - (1 # 5))
  else 1.

(** The same sentence with the window read as a position: the fade-out
    starts at [lifetime - 0.2]. *)
Definition envelope_window_start (t lifetime : Q) : Q :=
  if JS.ltb t (1 # 5) then t / (1 # 5)
  else if JS.gtb t (lifetime - (1 # 5)) then (lifetime - t) / (1 # 5)
  else 1.

End Stated.

(** ** Further inputs

    Pages, layouts and names used by the properties of the operations. *)

Module Cases.

(** A page whose user asked for reduced motion. *)
Definition reduced_page : Controller.Host :=
  {| Controller.isCSSHoudiniSupported := true;
     Controller.prefersReducedMotion := true;
     Controller.hasIntersectionObserver := true;
     Controller.colord_toHsl := fun _ => (0, 0, 70) |}.

(** A page without the paint API. *)
Definition legacy_page : Controller.Host :=
  {| Controller.isCSSHoudiniSupported := false;
     Controller.prefersReducedMotion := false;
     Controller.hasIntersectionObserver := false;
     Controller.colord_toHsl := fun _ => (0, 0, 70) |}.

(** A block element of 1000 by 400, above the tiling limit. *)
Definition block_1000x400 : Controller.Layout :=
  {| Controller.display_inline := false;
     Controller.rect_width := 1000;
     Controller.rect_height := 400;
     Controller.line_heights := [400] |}.

(** An inline element of two lines, 18 and 20 high. *)
Definition inline_two_lines : Controller.Layout :=
  {| Controller.display_inline := true;
     Controller.rect_width := 500;
     Controller.rect_height := 38;
     Controller.line_heights := [18; 20] |}.

(** The properties [destroy] removes. *)
Definition removed_on_destroy : list string :=
  ["background"; "--t"; "--t-stop"; "--fade"; "--gap"; "--words"; "--density"]%string.

(** Frame times that do not decrease, from [a] on. *)
Fixpoint nondecreasing_from (a : Q) (l : list Q) : Prop :=
  match l with
  | [] => True
  | x :: r => a <= x /\ nondecreasing_from x r
  end.

(** The locals of a paint whose clock reads [w], everything else kept. *)
Definition at_worldt (w : Q) (L : Worklet.Locals) : Worklet.Locals :=
  {| Worklet.worldt := w;
     Worklet.dprx := Worklet.dprx L;
     Worklet.accent := Worklet.accent L;
     Worklet.frict := Worklet.frict L;
     Worklet.vmin := Worklet.vmin L;
     Worklet.vmax := Worklet.vmax L;
     Worklet.width := Worklet.width L;
     Worklet.height := Worklet.height L;
     Worklet.vgap := Worklet.vgap L;
     Worklet.hgap := Worklet.hgap L;
     Worklet.density := Worklet.density L;
     Worklet.n := Worklet.n L;
     Worklet.sizedev := Worklet.sizedev L |}.

End Cases.

(** * Properties *)

(** ** Comparisons and remainders *)

Section Numbers.

Lemma ltb_lt x y : JS.ltb x y = true <-> x < y.
Proof.
  unfold JS.ltb. rewrite negb_true_iff.
  split.
  - intros H. apply Qnot_le_lt. intros Hle.
    apply Qle_bool_iff in Hle. congruence.
  - intros H. destruct (Qle_bool y x) eqn:E; [| reflexivity].
    apply Qle_bool_iff in E. lra.
Qed.

Lemma ltb_ge x y : JS.ltb x y = false <-> y <= x.
Proof.
  unfold JS.ltb. rewrite negb_false_iff. apply Qle_bool_iff.
Qed.

Lemma gtb_gt x y : JS.gtb x y = true <-> y < x.
Proof. apply ltb_lt. Qed.

Lemma gtb_le x y : JS.gtb x y = false <-> x <= y.
Proof. apply ltb_ge. Qed.

Lemma leb_le x y : JS.leb x y = true <-> x <= y.
Proof. apply Qle_bool_iff. Qed.

Lemma leb_gt x y : JS.leb x y = false <-> y < x.
Proof.
  unfold JS.leb. split.
  - intros H. apply Qnot_le_lt. intros Hle. apply Qle_bool_iff in Hle. congruence.
  - intros H. destruct (Qle_bool x y) eqn:E; [| reflexivity].
    apply Qle_bool_iff in E. lra.
Qed.

Lemma geb_ge x y : JS.geb x y = true <-> y <= x.
Proof. apply Qle_bool_iff. Qed.

Lemma geb_lt x y : JS.geb x y = false <-> x < y.
Proof. apply leb_gt. Qed.

Lemma truthy_nonzero x : JS.truthy x = true <-> ~ x == 0.
Proof.
  unfold JS.truthy. rewrite negb_true_iff. split.
  - intros H E. apply Qeq_bool_iff in E. congruence.
  - intros H. destruct (Qeq_bool x 0) eqn:E; [| reflexivity].
    apply Qeq_bool_iff in E. contradiction.
Qed.

Lemma truthy_zero x : JS.truthy x = false <-> x == 0.
Proof.
  unfold JS.truthy. rewrite negb_false_iff. apply Qeq_bool_iff.
Qed.

Lemma trunc_nonneg q : 0 <= q -> inject_Z (JS.trunc q) <= q < inject_Z (JS.trunc q) + 1.
Proof.
  intros Hq. unfold JS.trunc.
  apply Qle_bool_iff in Hq. rewrite Hq.
  pose proof (Qfloor_le q). pose proof (Qlt_floor q) as Hlt.
  rewrite inject_Z_plus in Hlt. change (inject_Z 1) with 1 in Hlt.
  split; assumption.
Qed.

Lemma trunc_neg q : q < 0 -> inject_Z (JS.trunc q) - 1 < q <= inject_Z (JS.trunc q).
Proof.
  intros Hq. unfold JS.trunc.
  apply leb_gt in Hq. unfold JS.leb in Hq. rewrite Hq.
  pose proof (Qle_ceiling q). pose proof (Qceiling_lt q) as Hlt.
  unfold Z.sub in Hlt. rewrite inject_Z_plus, inject_Z_opp in Hlt.
  change (inject_Z 1) with 1 in Hlt.
  split; [lra | assumption].
Qed.

Lemma rem_nonneg x n : 0 < n -> 0 <= x -> 0 <= JS.rem x n < n.
Proof.
  intros Hn Hx. unfold JS.rem.
  assert (Hq : 0 <= x / n) by (apply Qle_shift_div_l; lra).
  pose proof (trunc_nonneg _ Hq) as [Hlo Hhi].
  assert (Ex : x == (x / n) * n) by (field; lra).
  set (k := inject_Z (JS.trunc (x / n))) in *.
  set (q := x / n) in *.
  split; nra.
Qed.

Lemma rem_neg x n : 0 < n -> x < 0 -> - n < JS.rem x n <= 0.
Proof.
  intros Hn Hx. unfold JS.rem.
  assert (Hq : x / n < 0) by (apply Qlt_shift_div_r; lra).
  pose proof (trunc_neg _ Hq) as [Hlo Hhi].
  assert (Ex : x == (x / n) * n) by (field; lra).
  set (k := inject_Z (JS.trunc (x / n))) in *.
  set (q := x / n) in *.
  split; nra.
Qed.

Lemma rem_bounds x n : 0 < n -> - n < JS.rem x n < n.
Proof.
  intros Hn. destruct (Qlt_le_dec x 0) as [Hx | Hx].
  - pose proof (rem_neg x n Hn Hx). lra.
  - pose proof (rem_nonneg x n Hn Hx). lra.
Qed.

End Numbers.


Section Generator.
Import Worklet.

Lemma ToInt32_small z : (- 2 ^ 31 <= z < 2 ^ 31)%Z -> JS.ToInt32 z = z.
Proof.
  intros Hz. unfold JS.ToInt32.
  rewrite Z.mod_small; lia.
Qed.

Lemma ToInt32_range z : (- 2 ^ 31 <= JS.ToInt32 z < 2 ^ 31)%Z.
Proof.
  unfold JS.ToInt32.
  pose proof (Z.mod_pos_bound (z + 2 ^ 31) (2 ^ 32) ltac:(lia)). lia.
Qed.

Lemma ToInt32_congruent z : (JS.ToInt32 z mod 2 ^ 32 = z mod 2 ^ 32)%Z.
Proof.
  unfold JS.ToInt32.
  rewrite Zminus_mod, Z.mod_mod by lia.
  rewrite <- Zminus_mod. f_equal. lia.
Qed.

(** [Math.imul] converts its arguments with [ToInt32] first; on integers
    that changes nothing, which is why [lcg_next] may leave the signed
    range between two steps. *)
Lemma Math_imul_wraps a b :
  JS.Math_imul (JS.ToInt32 a) (JS.ToInt32 b) = JS.Math_imul a b.
Proof.
  unfold JS.Math_imul.
  assert (E : ((JS.ToInt32 a * JS.ToInt32 b) mod 2 ^ 32 = (a * b) mod 2 ^ 32)%Z).
  { rewrite Z.mul_mod, !ToInt32_congruent, <- Z.mul_mod by lia. reflexivity. }
  unfold JS.ToInt32 at 1 4.
  rewrite (Z.add_mod (JS.ToInt32 a * JS.ToInt32 b)), E, <- Z.add_mod by lia.
  reflexivity.
Qed.

Lemma lcg_bits_range seed : (0 <= lcg_bits seed <= 0x7fffffff)%Z.
Proof.
  unfold lcg_bits, JS.bitand.
  rewrite (ToInt32_small 0x7fffffff) by lia.
  change 0x7fffffff%Z with (Z.ones 31).
  rewrite Z.land_ones by lia.
  pose proof (Z.mod_pos_bound (JS.ToInt32 (JS.Math_imul 48271 seed)) (2 ^ 31) ltac:(lia)).
  change (Z.ones 31) with 2147483647%Z. lia.
Qed.

End Generator.

Section GeneratorRange.
Import Worklet.

Lemma lcgrand_value seed a b :
  fst (lcgrand a b seed) =
  a + (Qabs (b - a) * inject_Z (lcg_bits (lcg_next seed))) / inject_Z 0x7fffffff.
Proof. reflexivity. Qed.

Lemma lcgrand_state seed a b : snd (lcgrand a b seed) = lcg_next seed.
Proof. reflexivity. Qed.

Lemma scaled_bits_unit k :
  (0 <= k <= 0x7fffffff)%Z -> 0 <= inject_Z k / inject_Z 0x7fffffff <= 1.
Proof.
  intros [H0 H1].
  rewrite Zle_Qle in H0, H1.
  change (inject_Z 0) with 0 in H0.
  split.
  - apply Qle_shift_div_l; [reflexivity | lra].
  - apply Qle_shift_div_r; [reflexivity | lra].
Qed.

Lemma lcgrand_between seed a b :
  a <= fst (lcgrand a b seed) <= a + Qabs (b - a).
Proof.
  rewrite lcgrand_value.
  pose proof (scaled_bits_unit _ (lcg_bits_range (lcg_next seed))) as Hu.
  pose proof (Qabs_nonneg (b - a)) as Hn.
  set (u := inject_Z (lcg_bits (lcg_next seed)) / inject_Z 0x7fffffff) in *.
  assert (E : Qabs (b - a) * inject_Z (lcg_bits (lcg_next seed)) / inject_Z 0x7fffffff
              == Qabs (b - a) * u) by (unfold u; field; discriminate).
  rewrite E. nra.
Qed.

End GeneratorRange.

Section GeneratorClaim.
Import Worklet.

Example full_seed_bits : lcg_bits (lcg_next Stated.full_seed) = 0x7fffffff%Z.
Proof. vm_compute. reflexivity. Qed.

(** C9, as stated, fails: from the seed [1078560870] the default draw
    [rand()] is exactly 1, which is not in the half-open range [0, 1). *)
Lemma lcgrand_reaches_upper_bound :
  fst (lcgrand 0 1 Stated.full_seed) == 1 /\ ~ Stated.draw_in_half_open Stated.full_seed 0 1.
Proof.
  assert (E : fst (lcgrand 0 1 Stated.full_seed) == 1) by (vm_compute; reflexivity).
  split; [exact E |].
  unfold Stated.draw_in_half_open. rewrite E. intros [_ H]. lra.
Qed.

(** C9, amended: for every pair of bounds and every seed state a draw is
    a number of the closed range from [a] to [a + |b - a|] (so of [a, b]
    when [a <= b], the upper end included), the draw is total (it yields a
    value and a next state for every input), and when [a == b] the draw is
    the constant [a]. *)
Theorem lcgrand_closed_range (seed : Z) (a b : Q) :
  (exists v seed', lcgrand a b seed = (v, seed')) /\
  a <= fst (lcgrand a b seed) <= a + Qabs (b - a) /\
  (a <= b -> a <= fst (lcgrand a b seed) <= b) /\
  (a == b -> fst (lcgrand a b seed) == a).
Proof.
  pose proof (lcgrand_between seed a b) as [Hlo Hhi].
  split; [eexists _, _; reflexivity |].
  split; [split; assumption |].
  split.
  - intros Hab. split; [assumption |].
    rewrite Qabs_pos in Hhi by lra. lra.
  - intros Hab.
    assert (Qabs (b - a) == 0) as Hz.
    { assert (b - a == 0) as -> by lra. reflexivity. }
    rewrite Hz in Hhi. lra.
Qed.

End GeneratorClaim.

(** ** The visibility envelope and the opacity *)

Section Envelope.
Import Worklet.
Context `{HostMath}.

Lemma render_state_Some L p r :
  render_state L p = Some r ->
  age r = local_age L p /\
  age r < lifetime p /\
  visibility r = trapezoidalWave (age r) (1 # 2) (lifetime p) /\
  alpha r = 1 - age r / lifetime p /\
  size r = size0 p * visibility r /\
  draws r = cycleBounds (pos r) (width L, height L) (size r / 2).
Proof.
  unfold render_state.
  destruct (JS.geb (local_age L p) (lifetime p)) eqn:E; [discriminate |].
  apply geb_lt in E.
  destruct (vecnorm (v0 p)) as [vx0norm vy0norm].
  destruct (v0 p) as [vx0 vy0].
  intros [= <-]. simpl. repeat split; auto.
Qed.

Lemma render_state_None L p :
  lifetime p <= local_age L p -> render_state L p = None.
Proof.
  intros Hge. unfold render_state.
  apply geb_ge in Hge. rewrite Hge. reflexivity.
Qed.

Lemma render_state_is_Some L p :
  local_age L p < lifetime p -> exists r, render_state L p = Some r.
Proof.
  intros Hlt. unfold render_state.
  apply geb_lt in Hlt. rewrite Hlt.
  destruct (vecnorm (v0 p)), (v0 p). eexists. reflexivity.
Qed.

Lemma trapezoidalWave_ramp t l n : t < 1 # 5 -> trapezoidalWave t l n == t / (1 # 5).
Proof.
  intros Ht. unfold trapezoidalWave.
  apply ltb_lt in Ht. rewrite Ht. reflexivity.
Qed.

Lemma trapezoidalWave_hold t l n : 1 # 5 <= t -> t <= n - l -> trapezoidalWave t l n == 1.
Proof.
  intros Ht Hn. unfold trapezoidalWave.
  apply ltb_ge in Ht. rewrite Ht.
  apply gtb_le in Hn. rewrite Hn. reflexivity.
Qed.

Lemma trapezoidalWave_fade t l n :
  1 # 5 <= t -> n - l < t -> trapezoidalWave t l n == (n - t) / l.
Proof.
  intros Ht Hn. unfold trapezoidalWave.
  apply ltb_ge in Ht. rewrite Ht.
  apply gtb_gt in Hn. rewrite Hn. reflexivity.
Qed.

Lemma trapezoidalWave_unit t n :
  0 <= t < n -> 0 <= trapezoidalWave t (1 # 2) n <= 1.
Proof.
  intros [H0 Hn].
  destruct (Qlt_le_dec t (1 # 5)) as [Ht | Ht].
  - rewrite trapezoidalWave_ramp by assumption.
    assert (E : t / (1 # 5) == 5 * t) by (field; discriminate).
    rewrite E. lra.
  - destruct (Qlt_le_dec (n - (1 # 2)) t) as [Hf | Hf].
    + rewrite trapezoidalWave_fade by assumption.
      assert (E : (n - t) / (1 # 2) == 2 * (n - t)) by (field; discriminate).
      rewrite E. lra.
    + rewrite trapezoidalWave_hold by assumption. lra.
Qed.

Lemma alpha_unit t n : 0 <= t < n -> 0 <= 1 - t / n <= 1.
Proof.
  intros [H0 Hn].
  assert (0 <= t / n) by (apply Qle_shift_div_l; lra).
  assert (t / n <= 1) by (apply Qle_shift_div_r; lra).
  lra.
Qed.

End Envelope.

Section EnvelopeClaims.
Import Worklet.
Context `{HostMath}.

(** C5, amended: the visibility envelope of a drawn particle of local age
    [t] is [trapezoidalWave t 0.5 lifetime]: a linear ramp [t / 0.2] over
    the first 0.2 time units, constant 1 from 0.2 to [lifetime - 0.5], and
    a linear fade-out [(lifetime - t) / 0.5] over the final 0.5 time units
    of the lifetime (for ages of at least 0.2). *)
Theorem envelope_pieces (L : Locals) (p : Particle) (r : RenderState) :
  render_state L p = Some r ->
  let t := age r in
  visibility r = trapezoidalWave t (1 # 2) (lifetime p) /\
  (t < 1 # 5 -> visibility r == t / (1 # 5)) /\
  (1 # 5 <= t -> t <= lifetime p - (1 # 2) -> visibility r == 1) /\
  (1 # 5 <= t -> lifetime p - (1 # 2) < t -> visibility r == (lifetime p - t) / (1 # 2)).
Proof.
  intros Hr t.
  apply render_state_Some in Hr as (_ & _ & Hv & _).
  split; [exact Hv |]. rewrite Hv. fold t.
  split; [| split].
  - apply trapezoidalWave_ramp.
  - apply trapezoidalWave_hold.
  - apply trapezoidalWave_fade.
Qed.

(** C6: for every particle and every local age [t] with
    [0 <= t < lifetime] the particle is rendered with opacity
    [1 - t / lifetime], the opacity lies in [0, 1] and so does the size
    envelope; whenever [t >= lifetime] the particle is skipped: the
    iteration draws nothing. *)
Theorem visibility_bounds (L : Locals) (p : Particle) :
  let t := local_age L p in
  (lifetime p <= t -> render_state L p = None /\ particle_ops L p = []) /\
  (0 <= t < lifetime p ->
   exists r, render_state L p = Some r /\ age r = t /\
             alpha r == 1 - t / lifetime p /\
             0 <= alpha r <= 1 /\ 0 <= visibility r <= 1).
Proof.
  intros t. split.
  - intros Hge. pose proof (render_state_None L p Hge) as E.
    split; [exact E |]. unfold particle_ops. rewrite E. reflexivity.
  - intros Ht.
    destruct (render_state_is_Some L p (proj2 Ht)) as [r Hr].
    exists r. split; [exact Hr |].
    apply render_state_Some in Hr as (Ha & _ & Hv & Hal & _).
    fold t in Ha. rewrite Hal, Hv, Ha.
    split; [reflexivity |].
    split; [reflexivity |].
    split; [apply alpha_unit | apply trapezoidalWave_unit]; exact Ht.
Qed.

End EnvelopeClaims.

Section EnvelopeExamples.
Import Worklet.

(** C5, as stated, fails whichever way the window is read: at lifetime
    1.5 the code holds the envelope at 1 at age 0.5, inside the final
    [lifetime - 0.2] time units, and is already fading at age 1.2, before
    [lifetime - 0.2]. *)
Lemma envelope_window_differs :
  ~ trapezoidalWave (1 # 2) (1 # 2) (3 # 2) == Stated.envelope_window_length (1 # 2) (3 # 2) /\
  ~ trapezoidalWave (6 # 5) (1 # 2) (3 # 2) == Stated.envelope_window_start (6 # 5) (3 # 2).
Proof.
  split; vm_compute; discriminate.
Qed.

Lemma first_particle_rendered :
  exists r, @render_state Scenario.rational_math Scenario.bare_locals Scenario.first_particle = Some r.
Proof. vm_compute. eexists. reflexivity. Qed.

Lemma envelope_pieces_witness :
  exists r,
    @render_state Scenario.rational_math Scenario.bare_locals Scenario.first_particle = Some r /\
    visibility r = trapezoidalWave (age r) (1 # 2) (lifetime Scenario.first_particle).
Proof.
  destruct (@render_state Scenario.rational_math Scenario.bare_locals Scenario.first_particle)
    as [r |] eqn:E.
  - exists r. split; [reflexivity |].
    exact (proj1 (@envelope_pieces Scenario.rational_math _ _ r E)).
  - exfalso. vm_compute in E. discriminate E.
Defined.

End EnvelopeExamples.

(** ** The draws of the loop *)

Section Draws.
Import Worklet.
Context `{HostMath}.

Lemma bind_lcgrand {B} a b (k : Q -> Rand B) s :
  bind (lcgrand a b) k s = k (fst (lcgrand a b s)) (lcg_next s).
Proof. reflexivity. Qed.

(** The ten draws of one iteration, each named by its rank. *)
Lemma particle_unfold L s :
  particle L s =
  (let x0 := Stated.nth_draw 0 (vgap L) (width L - vgap L) s in
   let y0 := Stated.nth_draw 1 (hgap L) (height L - hgap L) s in
   let v0mag := Stated.nth_draw 2 (vmin L) (vmax L) s in
   let size0 := Stated.nth_draw 3 1 (1 + sizedev L) s in
   let _l := inject_Z (snd (accent L)) in
   let u := Stated.nth_draw 4 0 1 s in
   let a := Stated.nth_draw 5 0 (Math_PI * 2) s in
   let c := Stated.nth_draw 6 0 1 s in
   let lifetime := Stated.nth_draw 7 (3 # 10) (3 # 2) s in
   let respawn := Stated.nth_draw 8 0 1 s in
   let phase := Stated.nth_draw 9 0 (lifetime + respawn) s in
   {| x0 := x0; y0 := y0; v0mag := v0mag; size0 := size0;
      lightness := JS.Math_floor (lerp (_l * (1 # 2)) _l u);
      v0 := pol2vec v0mag a;
      shape := if JS.gtb c (1 # 2) then square else circle;
      lifetime := lifetime; respawn := respawn; phase := phase |},
   Nat.iter 10 lcg_next s).
Proof.
  unfold particle.
  do 10 (rewrite bind_lcgrand; cbv beta zeta).
  unfold ret, Stated.nth_draw.
  cbv beta iota delta [Nat.iter nat_rect].
  reflexivity.
Qed.

Lemma particle_state L s : snd (particle L s) = Nat.iter 10 lcg_next s.
Proof. rewrite particle_unfold. reflexivity. Qed.

Lemma iteration_value L s :
  iteration L s = ((fst (particle L s), particle_ops L (fst (particle L s))),
                   Nat.iter 10 lcg_next s).
Proof.
  pose proof (particle_state L s) as Hs.
  unfold iteration, bind, ret.
  destruct (particle L s) as [p s']. cbn [fst snd] in *.
  rewrite Hs. reflexivity.
Qed.

Lemma loop_S L k s :
  loop L (S k) s =
  (fst (iteration L s) :: fst (loop L k (snd (iteration L s))),
   snd (loop L k (snd (iteration L s)))).
Proof.
  change (loop L (S k) s)
    with (bind (iteration L) (fun it => bind (loop L k) (fun its => ret (it :: its))) s).
  unfold bind, ret.
  destruct (iteration L s) as [it s1]. simpl.
  destruct (loop L k s1) as [its s2]. reflexivity.
Qed.

Lemma iter_shift (f : Z -> Z) (i : nat) (s : Z) :
  Nat.iter (10 * i) f (Nat.iter 10 f s) = Nat.iter (10 * S i) f s.
Proof.
  replace (10 * S i)%nat with (10 * i + 10)%nat by lia.
  symmetry. apply Nat.iter_add.
Qed.

Lemma loop_length L k : forall s, length (fst (loop L k s)) = k.
Proof.
  induction k as [| k IH]; intros s; [reflexivity |].
  rewrite loop_S. cbn [fst length]. rewrite IH. reflexivity.
Qed.

Lemma loop_lookup L k :
  forall s i, (i < k)%nat ->
    fst (loop L k s) !! i = Some (fst (iteration L (Nat.iter (10 * i) lcg_next s))).
Proof.
  induction k as [| k IH]; intros s i Hi; [lia |].
  rewrite loop_S. destruct i as [| i].
  - reflexivity.
  - cbn [fst]. change ((?x :: ?l) !! S i) with (l !! i).
    rewrite IH by lia.
    rewrite (iteration_value L s). cbn [snd].
    rewrite iter_shift. reflexivity.
Qed.

Lemma loop_state L k : forall s, snd (loop L k s) = Nat.iter (10 * k) lcg_next s.
Proof.
  induction k as [| k IH]; intros s; [reflexivity |].
  rewrite loop_S. cbn [snd]. rewrite IH, iteration_value. cbn [snd].
  apply iter_shift.
Qed.

(** The particles the loop draws live between 0.3 and 1.5 seconds, and
    with a clock that is not negative their local age is not either. *)
Lemma drawn_lifetime L s : 3 # 10 <= lifetime (fst (particle L s)) <= 3 # 2.
Proof.
  rewrite particle_unfold. cbv zeta. cbn [fst lifetime].
  unfold Stated.nth_draw.
  pose proof (lcgrand_between (Nat.iter 7 lcg_next s) (3 # 10) (3 # 2)) as [Hlo Hhi].
  rewrite Qabs_pos in Hhi by lra.
  split; lra.
Qed.

Lemma drawn_age L s :
  0 <= worldt L ->
  0 <= local_age L (fst (particle L s)) <= lifetime (fst (particle L s)).
Proof.
  intros Hw.
  pose proof (drawn_lifetime L s) as Hl.
  unfold local_age.
  set (p := fst (particle L s)) in *.
  assert (Hr : 0 <= respawn p).
  { subst p. rewrite particle_unfold. cbv zeta. cbn [fst respawn].
    apply (lcgrand_between (Nat.iter 8 lcg_next s) 0 1). }
  assert (Hp : 0 <= phase p).
  { subst p. rewrite particle_unfold. cbv zeta. cbn [fst phase].
    apply (lcgrand_between (Nat.iter 9 lcg_next s) 0). }
  pose proof (rem_nonneg (worldt L + phase p) (lifetime p + respawn p)
                ltac:(lra) ltac:(lra)) as [Hm _].
  unfold JS.Math_min. split.
  - apply Q.min_glb; lra.
  - apply Q.le_min_l.
Qed.


(** C3: for every particle index [i] of a paint, the generator state the
    iteration starts from is [particle_seed i], which is derived from the
    fixed base seed and [i] alone; the iteration's particle is the one
    drawn from that state, and its draws are made in the order origin x,
    origin y, initial speed, initial size, lightness blend factor, launch
    angle, shape choice, lifetime, respawn gap, phase. *)
Theorem particle_from_index (env : Env) (size : Q * Q) (props : gmap string Css.value)
    (i : nat) :
  let L := locals env size props in
  let s := Stated.particle_seed i in
  (i < iterations L)%nat ->
  exists p ops,
    paint_trace env size props !! i = Some (p, ops) /\
    p = fst (particle L s) /\
    ops = particle_ops L p /\
    x0 p = Stated.nth_draw 0 (vgap L) (width L - vgap L) s /\
    y0 p = Stated.nth_draw 1 (hgap L) (height L - hgap L) s /\
    v0mag p = Stated.nth_draw 2 (vmin L) (vmax L) s /\
    size0 p = Stated.nth_draw 3 1 (1 + sizedev L) s /\
    lightness p =
      JS.Math_floor (lerp (inject_Z (snd (accent L)) * (1 # 2)) (inject_Z (snd (accent L)))
                          (Stated.nth_draw 4 0 1 s)) /\
    v0 p = pol2vec (v0mag p) (Stated.nth_draw 5 0 (Math_PI * 2) s) /\
    shape p = (if JS.gtb (Stated.nth_draw 6 0 1 s) (1 # 2) then square else circle) /\
    lifetime p = Stated.nth_draw 7 (3 # 10) (3 # 2) s /\
    respawn p = Stated.nth_draw 8 0 1 s /\
    phase p = Stated.nth_draw 9 0 (lifetime p + respawn p) s.
Proof.
  intros L s Hi.
  exists (fst (particle L s)), (particle_ops L (fst (particle L s))).
  split.
  - unfold paint_trace. fold L. rewrite loop_lookup by exact Hi.
    rewrite iteration_value. reflexivity.
  - split; [reflexivity |]. split; [reflexivity |].
    rewrite particle_unfold. cbv zeta. cbn [fst x0 y0 v0mag size0 lightness v0 shape
                                             lifetime respawn phase].
    repeat split; reflexivity.
Qed.

End Draws.

(** ** The wrap *)

Section Wrap.
Import Worklet.

Lemma cycle_range x n : 0 < n -> 0 <= _cycle x n < n.
Proof.
  intros Hn. unfold _cycle.
  pose proof (rem_bounds x n Hn).
  apply rem_nonneg; lra.
Qed.

(** The wrapped coordinate is the coordinate moved by a whole number of
    surface dimensions. *)
Lemma cycle_congruent x n : exists k : Z, _cycle x n == x + inject_Z k * n.
Proof.
  unfold _cycle, JS.rem.
  set (k1 := JS.trunc (x / n)).
  set (k2 := JS.trunc ((x - n * inject_Z k1 + n) / n)).
  exists (1 - k1 - k2)%Z.
  unfold Z.sub. rewrite !inject_Z_plus, !inject_Z_opp.
  change (inject_Z 1) with 1. ring.
Qed.

Lemma mirror_offset c n r :
  _mirror c n r - c ==
  (if JS.ltb c r then n else if JS.gtb c (n - r) then - n else 0).
Proof.
  unfold _mirror.
  destruct (JS.ltb c r); [ring |].
  destruct (JS.gtb c (n - r)); ring.
Qed.

(** C2, as stated, fails: the point (50, 50) of a 100 by 100 surface is
    farther than 1 from every edge, and two positions are returned, not
    one. *)
Lemma cycleBounds_never_one :
  Stated.near_edge (_cycle 50 100) 100 1 = false /\
  length (cycleBounds (50, 50) (100, 100) 1) = 2%nat /\
  ~ Stated.wrap_positions 50 50 100 100 1.
Proof.
  split; [vm_compute; reflexivity |].
  split; [reflexivity |].
  unfold Stated.wrap_positions.
  replace (Stated.near_edge (_cycle 50 100) 100 1 || Stated.near_edge (_cycle 50 100) 100 1)
    with false by (vm_compute; reflexivity).
  cbn [cycleBounds length]. discriminate.
Qed.

(** C2, amended: for every position fed through the wrap of a surface of
    positive dimensions with mirror radius [r], the wrapped coordinates lie
    in [0, w) and [0, h), a whole number of dimensions away from the
    position, and exactly two draw positions are returned, the
    wrapped position and a second one; on each axis the second differs from
    the first by exactly the surface dimension when the wrapped coordinate
    lies within [r] of an edge (plus the dimension below [r], minus the
    dimension above [dimension - r]) and coincides with it otherwise, so a
    position away from every edge is returned twice. *)
Theorem cycleBounds_two_positions (x y w h r : Q) :
  0 < w -> 0 < h ->
  let tx := _cycle x w in
  let ty := _cycle y h in
  0 <= tx < w /\ 0 <= ty < h /\
  (exists kx ky : Z, tx == x + inject_Z kx * w /\ ty == y + inject_Z ky * h) /\
  exists mx my,
    cycleBounds (x, y) (w, h) r = [(tx, ty); (mx, my)] /\
    mx - tx == (if JS.ltb tx r then w else if JS.gtb tx (w - r) then - w else 0) /\
    my - ty == (if JS.ltb ty r then h else if JS.gtb ty (h - r) then - h else 0).
Proof.
  intros Hw Hh tx ty.
  split; [apply cycle_range; exact Hw |].
  split; [apply cycle_range; exact Hh |].
  split.
  { destruct (cycle_congruent x w) as [kx Hx], (cycle_congruent y h) as [ky Hy].
    exists kx, ky. split; assumption. }
  exists (_mirror tx w r), (_mirror ty h r).
  split; [reflexivity |].
  split; apply mirror_offset.
Qed.

Lemma cycleBounds_two_positions_witness :
  exists mx my,
    cycleBounds (5, 50) (100, 100) 10 = [(_cycle 5 100, _cycle 50 100); (mx, my)] /\
    mx - _cycle 5 100 == 100 /\ my - _cycle 50 100 == 0.
Proof.
  destruct (cycleBounds_two_positions 5 50 100 100 10) as (_ & _ & _ & mx & my & E & Hx & Hy).
  - reflexivity.
  - reflexivity.
  - exists mx, my. split; [exact E |]. split; [exact Hx | exact Hy].
Defined.

End Wrap.

(** ** The particle count *)

Section Count.
Import Worklet.
Context `{HostMath}.




End Count.

(** ** The frame callback *)

Section Frame.
Import Controller.


Lemma frame_destroyed now st : wasDestroyed st = true -> frame now st = st.
Proof. intros Hd. unfold frame. rewrite Hd. reflexivity. Qed.

(** A frame that finds the stop condition true requests nothing. *)
Lemma frame_stopping now st :
  shouldStop st = true ->
  pending (frame now st) = pending st /\
  next_handle (frame now st) = next_handle st /\
  raf (frame now st) = raf st /\
  _tstop (frame now st) = _tstop st /\
  style (frame now st) !! "--t-stop"%string = style st !! "--t-stop"%string.
Proof.
  intros Hs. unfold frame.
  destruct (wasDestroyed st); [repeat split; reflexivity |].
  rewrite Hs, andb_false_r.
  destruct (JS.gtb (now - t0 st) 0 && below_interval (now - t0 st) (maxFPS st));
    repeat split; try reflexivity.
  cbn. apply lookup_insert_ne. discriminate.
Qed.

(** A frame of a live controller with a positive rate whose stop
    condition is false requests the next one. *)
Lemma frame_requests now st :
  wasDestroyed st = false -> 0 < maxFPS st -> shouldStop st = false ->
  pending (frame now st) = pending st ++ [next_handle st] /\
  raf (frame now st) = Some (next_handle st).
Proof.
  intros Hd Hf Hs. unfold frame. rewrite Hd, Hs.
  apply gtb_gt in Hf. rewrite Hf. cbn [andb negb].
  destruct (JS.gtb _ 0 && below_interval _ _); split; reflexivity.
Qed.

(** What a frame leaves alone. *)
Lemma frame_keeps now st :
  wasDestroyed (frame now st) = wasDestroyed st /\
  maxFPS (frame now st) = maxFPS st /\
  _tstop (frame now st) = _tstop st /\
  _fadeDuration (frame now st) = _fadeDuration st.
Proof.
  unfold frame.
  destruct (wasDestroyed st) eqn:Hd; [repeat split; cbn; auto |].
  destruct (JS.gtb (maxFPS st) 0 && negb (shouldStop st));
    destruct (JS.gtb _ 0 && below_interval _ _); repeat split; cbn; auto.
Qed.

Lemma shouldStop_zero st ts : _tstop st = Some ts -> ts == 0 -> shouldStop st = false.
Proof.
  intros Ht Hz. unfold shouldStop. rewrite Ht.
  apply truthy_zero in Hz. rewrite Hz. reflexivity.
Qed.

Lemma shouldStop_past st ts :
  _tstop st = Some ts -> ~ ts == 0 -> ts + _fadeDuration st < _t st ->
  shouldStop st = true.
Proof.
  intros Ht Hz Hp. unfold shouldStop. rewrite Ht.
  apply truthy_nonzero in Hz. rewrite Hz.
  apply gtb_gt in Hp. rewrite Hp. reflexivity.
Qed.


(** The first frame after a start has [dt = 0] and is never skipped,
    whatever the rate. *)
Lemma start_never_skips now st :
  wasDestroyed st = false ->
  t0 (startAnimation now st) = now /\
  _t (startAnimation now st) = _t st + (now - now) / 1000 /\
  style (startAnimation now st) !! "--t"%string =
    Some (Css.Fixed3 (JS.toFixed3 (_t st + (now - now) / 1000))).
Proof.
  intros Hd. unfold startAnimation, frame.
  cbn [wasDestroyed with_t0]. rewrite Hd.
  assert (G : forall s, JS.gtb (now - t0 (with_t0 now s)) 0 = false).
  { intros s. apply gtb_le. cbn [t0 with_t0]. lra. }
  destruct (JS.gtb (maxFPS (with_t0 now st)) 0 && negb (shouldStop (with_t0 now st))).
  - change (t0 (requestAnimationFrame (with_t0 now st))) with (t0 (with_t0 now st)).
    rewrite G. cbn [andb].
    repeat split. cbn [style with_t0 set_t setProperty with_style]. apply lookup_insert_eq.
  - rewrite G. cbn [andb].
    repeat split. cbn [style with_t0 set_t setProperty with_style]. apply lookup_insert_eq.
Qed.

(** A controller whose StopMark is 0: alive, with a positive rate. *)
Lemma zero_mark_callbacks now (l : list positive) :
  forall s,
    wasDestroyed s = false -> 0 < maxFPS s ->
    (exists ts, _tstop s = Some ts /\ ts == 0) ->
    let s' := fold_left (fun s _ => frame now s) l s in
    length (pending s') = (length (pending s) + length l)%nat /\
    wasDestroyed s' = false /\ maxFPS s' = maxFPS s /\ _tstop s' = _tstop s.
Proof.
  induction l as [| h l IH]; intros s Hd Hf (ts & Hts & Hz); cbn [fold_left length].
  - repeat split; try assumption. lia.
  - destruct (frame_keeps now s) as (Kd & Kf & Kt & _).
    destruct (frame_requests now s Hd Hf (shouldStop_zero s ts Hts Hz)) as [Hq _].
    destruct (IH (frame now s)) as (Il & Id & If & It).
    + congruence.
    + rewrite Kf. exact Hf.
    + exists ts. rewrite Kt. split; assumption.
    + rewrite Il, Hq, length_app. cbn [length].
      repeat split; [lia | exact Id | congruence | congruence].
Qed.

Lemma zero_mark_host_frame now s :
  wasDestroyed s = false -> 0 < maxFPS s ->
  (exists ts, _tstop s = Some ts /\ ts == 0) ->
  length (pending (animation_frame now s)) = length (pending s) /\
  wasDestroyed (animation_frame now s) = false /\
  maxFPS (animation_frame now s) = maxFPS s /\
  _tstop (animation_frame now s) = _tstop s.
Proof.
  intros Hd Hf Hz. unfold animation_frame.
  apply (zero_mark_callbacks now (pending s) (with_frames (next_handle s) [] s)); assumption.
Qed.

End Frame.

Section ControllerClaims.
Import Controller.

(** C1, as stated, fails: the controller that revealed at clock 0.5 with
    a fade of 1 and reads 2.5 runs its frame at 2600 ms; no tick is
    requested, but [isAnimating] is still true and [t-stop] is still
    published. *)
Lemma auto_stop_leaves_tstop :
  pending Scenario.faded = [] /\
  isAnimating Scenario.faded = true /\
  style Scenario.faded !! "--t-stop"%string = Some (Css.Fixed3 500) /\
  ~ Stated.auto_stop 2600 Scenario.fading.
Proof.
  split; [vm_compute; reflexivity |].
  split; [vm_compute; reflexivity |].
  split; [vm_compute; reflexivity |].
  intros Hc.
  destruct (Hc (_t Scenario.running)) as (_ & _ & Hs).
  - vm_compute. reflexivity.
  - vm_compute. reflexivity.
  - vm_compute. reflexivity.
  - vm_compute in Hs. discriminate Hs.
Qed.

(** C1, amended: for a controller in the StoppingForReveal state with a
    non-zero StopMark and a positive FadeDuration, once the clock value
    exceeds StopMark + FadeDuration the frame callback schedules no
    further tick; the StopMark and the published [t-stop] channel value
    stay as [reveal] set them. *)
Theorem frame_auto_stop (now : Q) (st : State) (ts : Q) :
  _tstop st = Some ts ->
  ~ ts == 0 ->
  0 < _fadeDuration st ->
  ts + _fadeDuration st < _t st ->
  let st' := frame now st in
  pending st' = pending st /\
  next_handle st' = next_handle st /\
  _tstop st' = Some ts /\
  style st' !! "--t-stop"%string = style st !! "--t-stop"%string.
Proof.
  intros Ht Hz _ Hp st'.
  pose proof (shouldStop_past st ts Ht Hz Hp) as Hs.
  destruct (frame_stopping now st Hs) as (Hq & Hn & _ & Hk & Hc).
  subst st'. rewrite Hk. repeat split; assumption.
Qed.

Lemma frame_auto_stop_witness :
  pending (frame 2600 Scenario.fading) = pending Scenario.fading /\
  style (frame 2600 Scenario.fading) !! "--t-stop"%string = Some (Css.Fixed3 500).
Proof.
  destruct (frame_auto_stop 2600 Scenario.fading (_t Scenario.running))
    as (Hq & _ & _ & Hc).
  - vm_compute. reflexivity.
  - vm_compute. discriminate.
  - vm_compute. reflexivity.
  - vm_compute. reflexivity.
  - split; [exact Hq |]. rewrite Hc. vm_compute. reflexivity.
Defined.



(** C10: if [reveal] is called with a positive fade duration while the
    clock value is 0 (on a live controller with a positive [maxFPS], the
    paint API present), the StopMark is set to the clock value, 0; the
    stop condition of the frame callback is then false after any number
    of frames, whatever their times, and every further frame requests the
    next tick, so that the host always has as many ticks pending as when
    [reveal] was called: the controller never stops by itself. *)
Theorem reveal_at_zero_never_stops (host : Host) (animate : option NumOrBool) (st : State) :
  isCSSHoudiniSupported host = true ->
  forceFallback_ st = false ->
  wasDestroyed st = false ->
  0 < maxFPS st ->
  _t st == 0 ->
  0 < parseFadeDuration host (default (IsBool true) animate) ->
  let st1 := reveal host animate st in
  _tstop st1 = Some (_t st) /\
  _fadeDuration st1 = parseFadeDuration host (default (IsBool true) animate) /\
  (forall nows : list Q,
     let s := Stated.frames nows st1 in
     shouldStop s = false /\
     forall now, pending (frame now s) = pending s ++ [next_handle s]) /\
  (forall nows : list Q,
     length (pending (Stated.host_frames nows st1)) = length (pending st)).
Proof.
  intros Hh Hff Hd Hf Ht0 Hdur st1.
  assert (E : st1 = set_tstop (Some (_t st))
                      (set_fadeDuration (parseFadeDuration host (default (IsBool true) animate))
                         (with_isHidden false st))).
  { subst st1. unfold reveal. cbn [forceFallback_ with_isHidden].
    rewrite Hh, Hff. cbn [negb orb].
    apply leb_gt in Hdur. rewrite Hdur. reflexivity. }
  split; [rewrite E; reflexivity |].
  split; [rewrite E; reflexivity |].
  assert (Inv : wasDestroyed st1 = false /\ 0 < maxFPS st1 /\
                exists ts, _tstop st1 = Some ts /\ ts == 0).
  { rewrite E. cbn. repeat split; try assumption. exists (_t st). split; [reflexivity | exact Ht0]. }
  assert (Hq : pending st1 = pending st) by (rewrite E; reflexivity).
  rewrite <- Hq. clear Hq.
  clearbody st1. clear E.
  split.
  - intros nows. revert st1 Inv.
    induction nows as [| now nows IH]; intros st1 (Hd1 & Hf1 & ts & Hts & Hz) s.
    + subst s. cbn [Stated.frames fold_left].
      pose proof (shouldStop_zero st1 ts Hts Hz) as Hs.
      split; [exact Hs |].
      intros now. apply frame_requests; assumption.
    + subst s. cbn [Stated.frames fold_left].
      apply IH.
      destruct (frame_keeps now st1) as (Kd & Kf & Kt & _).
      rewrite Kd, Kf, Kt. repeat split; try assumption.
      exists ts. split; [exact Hts | exact Hz].
  - intros nows. revert st1 Inv.
    induction nows as [| now nows IH]; intros st1 (Hd1 & Hf1 & Hz).
    + reflexivity.
    + cbn [Stated.host_frames fold_left].
      destruct (zero_mark_host_frame now st1 Hd1 Hf1 Hz) as (Hl & Kd & Kf & Kt).
      rewrite <- Hl. apply IH.
      rewrite Kf, Kt. repeat split; assumption.
Qed.

Lemma reveal_at_zero_never_stops_witness :
  let st1 := reveal Scenario.page (Some (IsNum 1)) Scenario.hidden in
  _tstop st1 = Some (_t Scenario.hidden) /\
  pending (frame 5000 (Stated.frames [1000; 2000; 3000; 4000] st1)) =
  pending (Stated.frames [1000; 2000; 3000; 4000] st1) ++
  [next_handle (Stated.frames [1000; 2000; 3000; 4000] st1)].
Proof.
  destruct (reveal_at_zero_never_stops Scenario.page (Some (IsNum 1)) Scenario.hidden)
    as (Hts & _ & Hall & _).
  - reflexivity.
  - reflexivity.
  - reflexivity.
  - reflexivity.
  - reflexivity.
  - reflexivity.
  - split; [exact Hts |].
    exact (proj2 (Hall [1000; 2000; 3000; 4000]) 5000).
Defined.

(** C8 (the code departs from it): [update] on a destroyed controller
    throws, but [hide] and [reveal] return normally; [hide] marks the
    content hidden and publishes [--fade] and [--t] again on the element
    that [destroy] had cleaned, and [reveal] publishes [--fade] and
    [--t-stop]. *)
Theorem use_after_destroy :
  let st := destroy Scenario.running in
  wasDestroyed st = true /\
  style st = ∅ /\
  update Scenario.page Scenario.block_300x100 no_options st =
    Throw "Painter has been destroyed and can't be used again." /\
  (exists st', invoke Scenario.page (CallHide None 600) st = Ok st' /\
               isHidden st' = true /\
               style st' !! "--t"%string = Some (Css.Fixed3 0) /\
               style st' !! "--fade"%string = Some (Css.Seconds (3 # 2))) /\
  (exists st', invoke Scenario.page (CallReveal None) st = Ok st' /\
               style st' !! "--t-stop"%string = Some (Css.Fixed3 500) /\
               style st' !! "--fade"%string = Some (Css.Seconds (3 # 2))).
Proof.
  cbv zeta.
  split; [vm_compute; reflexivity |].
  split; [vm_compute; reflexivity |].
  split; [vm_compute; reflexivity |].
  split; eexists; (split; [reflexivity |]); repeat split; vm_compute; reflexivity.
Qed.

(** What [destroy] leaves behind. *)
Lemma destroy_flags st :
  wasDestroyed (destroy st) = true /\
  forceFallback_ (destroy st) = forceFallback_ st /\
  raf (destroy st) = None.
Proof.
  unfold destroy. cbn [fold_left].
  set (s1 := stopAnimation (with_wasDestroyed true st)).
  assert (H1 : wasDestroyed s1 = true /\ forceFallback_ s1 = forceFallback_ st /\ raf s1 = None).
  { subst s1. unfold stopAnimation.
    destruct (raf (with_wasDestroyed true st)) eqn:Er; repeat split; try reflexivity.
    exact Er. }
  clearbody s1.
  match goal with |- context [if ?c then _ else _] => destruct c end; exact H1.
Qed.

(** On the paint path [hide] on a destroyed controller is the four
    writes: the frame it starts returns at its guard. *)
Lemma hide_destroyed_writes host animate now d :
  isCSSHoudiniSupported host = true -> forceFallback_ d = false -> wasDestroyed d = true ->
  hide host animate now d =
  with_t0 now (set_t 0 (set_tstop None
     (set_fadeDuration (parseFadeDuration host (default (IsBool true) animate))
        (with_isHidden true d)))).
Proof.
  intros Hh Hf Hd.
  unfold hide. cbn [forceFallback_ with_isHidden].
  rewrite Hh, Hf. cbn [negb orb].
  unfold startAnimation. rewrite frame_destroyed by exact Hd.
  reflexivity.
Qed.

(** Whatever the destroyed state, [hide] returns, marks the content
    hidden, publishes the clock and the fade and requests no frame. *)
Lemma hide_when_destroyed host animate now d :
  isCSSHoudiniSupported host = true -> forceFallback_ d = false -> wasDestroyed d = true ->
  let st' := hide host animate now d in
  isHidden st' = true /\
  style st' !! "--t"%string = Some (Css.Fixed3 0) /\
  style st' !! "--fade"%string =
    Some (Css.Seconds (parseFadeDuration host (default (IsBool true) animate))) /\
  pending st' = pending d.
Proof.
  intros Hh Hf Hd. cbv zeta.
  rewrite (hide_destroyed_writes host animate now d Hh Hf Hd).
  split; [reflexivity |].
  split; [cbn [style with_t0 set_t setProperty with_style]; apply lookup_insert_eq |].
  split; [| reflexivity].
  cbn [style with_t0 set_t set_tstop set_fadeDuration setProperty removeProperty
       with_style with_t with_tstop with_fadeDuration].
  rewrite lookup_insert_ne by discriminate.
  rewrite lookup_delete_ne by discriminate.
  apply lookup_insert_eq.
Qed.

(** Whatever the state and the options, [update] after [destroy] throws. *)
Lemma update_after_destroy host layout o st :
  update host layout o (destroy st) =
  Throw "Painter has been destroyed and can't be used again.".
Proof.
  destruct (destroy_flags st) as (Hd & _).
  unfold update. rewrite Hd. reflexivity.
Qed.

End ControllerClaims.

Section Witnesses.
Import Worklet.

Lemma particle_from_index_witness :
  exists p ops,
    @paint_trace Scenario.rational_math Scenario.worklet_env (300, 100) ∅ !! 2%nat
      = Some (p, ops) /\
    p = fst (@particle Scenario.rational_math Scenario.bare_locals (Stated.particle_seed 2)).
Proof.
  destruct (@particle_from_index Scenario.rational_math Scenario.worklet_env (300, 100) ∅ 2)
    as (p & ops & Hl & Hp & _).
  - vm_compute. lia.
  - exists p, ops. split; [exact Hl | exact Hp].
Defined.

Lemma visibility_bounds_witness :
  exists r,
    @render_state Scenario.rational_math Scenario.bare_locals Scenario.first_particle = Some r /\
    0 <= alpha r <= 1 /\ 0 <= visibility r <= 1.
Proof.
  destruct (@visibility_bounds Scenario.rational_math Scenario.bare_locals Scenario.first_particle)
    as [_ Hin].
  destruct Hin as (r & Hr & _ & _ & Ha & Hv).
  - split.
    + apply Qle_bool_iff. vm_compute. reflexivity.
    + vm_compute. reflexivity.
  - exists r. split; [exact Hr |]. split; [exact Ha | exact Hv].
Defined.

End Witnesses.

(** * Further properties of the operations *)

(** ** The clock and the reference time *)

Section Clock.
Import Controller.

Lemma div1000 x : x / 1000 == x * (1 # 1000).
Proof. field. Qed.

Lemma frame_offset now st :
  _t (frame now st) - t0 (frame now st) / 1000 == _t st - t0 st / 1000.
Proof.
  unfold frame.
  destruct (wasDestroyed st); [reflexivity |].
  destruct (JS.gtb (maxFPS st) 0 && negb (shouldStop st));
    destruct (JS.gtb _ 0 && below_interval _ _);
    cbn [_t t0 with_t0 set_t setProperty with_style with_t requestAnimationFrame
         with_raf with_frames];
    try reflexivity; field.
Qed.

Lemma callbacks_offset now (l : list positive) :
  forall s,
    let s' := fold_left (fun s _ => frame now s) l s in
    _t s' - t0 s' / 1000 == _t s - t0 s / 1000.
Proof.
  induction l as [| h l IH]; intros s; cbn [fold_left]; [reflexivity |].
  cbv zeta in IH. rewrite IH. apply frame_offset.
Qed.

Lemma animation_frame_offset now st :
  _t (animation_frame now st) - t0 (animation_frame now st) / 1000 == _t st - t0 st / 1000.
Proof.
  unfold animation_frame.
  rewrite (callbacks_offset now (pending st) (with_frames (next_handle st) [] st)).
  reflexivity.
Qed.

Lemma frames_offset (nows : list Q) :
  forall st,
    _t (Stated.frames nows st) - t0 (Stated.frames nows st) / 1000
      == _t st - t0 st / 1000.
Proof.
  induction nows as [| now nows IH]; intros st; cbn [Stated.frames fold_left].
  - reflexivity.
  - pose proof (IH (frame now st)) as H1. unfold Stated.frames in H1.
    rewrite H1. apply frame_offset.
Qed.

Lemma host_frames_offset (nows : list Q) :
  forall st,
    _t (Stated.host_frames nows st) - t0 (Stated.host_frames nows st) / 1000
      == _t st - t0 st / 1000.
Proof.
  induction nows as [| now nows IH]; intros st; cbn [Stated.host_frames fold_left].
  - reflexivity.
  - pose proof (IH (animation_frame now st)) as H1. unfold Stated.host_frames in H1.
    rewrite H1. apply animation_frame_offset.
Qed.

(** X1: no time is created.  Over any sequence of frame callbacks, and
    over any sequence of host frames, whatever their times, the rate and
    the state, the clock moves by exactly one thousandth of what the
    reference time moves: skipped frames move neither, and a frame that
    advances adds the whole time since the last advance. *)
Theorem clock_follows_reference (nows : list Q) (st : State) :
  _t (Stated.frames nows st) - _t st
    == (t0 (Stated.frames nows st) - t0 st) / 1000 /\
  _t (Stated.host_frames nows st) - _t st
    == (t0 (Stated.host_frames nows st) - t0 st) / 1000.
Proof.
  pose proof (frames_offset nows st) as H1.
  pose proof (host_frames_offset nows st) as H2.
  rewrite !div1000 in *. split; lra.
Qed.

(** The reference time after a frame is the old one or the frame's time. *)
Lemma frame_reference now st :
  t0 (frame now st) = t0 st \/ t0 (frame now st) = now.
Proof.
  unfold frame.
  destruct (wasDestroyed st); [left; reflexivity |].
  destruct (JS.gtb (maxFPS st) 0 && negb (shouldStop st));
    destruct (JS.gtb _ 0 && below_interval _ _); cbn; auto.
Qed.

Lemma nondecreasing_from_le a b l :
  a <= b -> Cases.nondecreasing_from b l -> Cases.nondecreasing_from a l.
Proof.
  intros Hab. destruct l as [| x l]; cbn; [trivial |].
  intros [Hx Hl]. split; [lra | exact Hl].
Qed.

Lemma frames_reference (nows : list Q) :
  forall st, Cases.nondecreasing_from (t0 st) nows ->
             t0 st <= t0 (Stated.frames nows st).
Proof.
  induction nows as [| now nows IH]; intros st Hall.
  - cbn. lra.
  - cbn [Stated.frames fold_left].
    destruct Hall as [Hnow Hrest].
    pose proof (IH (frame now st)) as H1. unfold Stated.frames in H1.
    destruct (frame_reference now st) as [E | E].
    + rewrite E in H1. apply H1.
      apply (nondecreasing_from_le _ now); assumption.
    + rewrite E in H1. specialize (H1 Hrest). lra.
Qed.

(** X2: the clock never runs backwards.  When the frame times do not
    decrease, starting from the reference time, the clock after the
    frames is at least the clock before them. *)
Theorem clock_monotone (nows : list Q) (st : State) :
  Cases.nondecreasing_from (t0 st) nows ->
  _t st <= _t (Stated.frames nows st).
Proof.
  intros Hall.
  pose proof (frames_reference nows st Hall) as Hr.
  pose proof (frames_offset nows st) as Ho.
  rewrite !div1000 in Ho. lra.
Qed.

Lemma clock_monotone_witness :
  _t Scenario.hidden <= _t (Stated.frames [10; 10; 60; 100] Scenario.hidden).
Proof.
  apply (clock_monotone [10; 10; 60; 100] Scenario.hidden).
  cbn. repeat split; apply Qle_bool_iff; reflexivity.
Defined.

End Clock.

(** ** Starting and stopping *)

Section StartStop.
Import Controller.

(** Reduce the projections of a state built by the setters, leaving the
    maps and lists alone. *)
Ltac fields :=
  cbn [maxFPS forceFallback_ wasDestroyed isHidden _fadeDuration _t t0 _tstop raf observer
       style next_handle pending
       with_maxFPS with_forceFallback with_wasDestroyed with_isHidden with_fadeDuration
       with_t with_t0 with_tstop with_raf with_observer with_style with_frames
       setProperty removeProperty set_tstop set_t set_fadeDuration
       requestAnimationFrame cancelAnimationFrame useBackgroundStyle].

(** Look a name up in a style built by writes and removals of other or of
    the same literal names. *)
Ltac lookups :=
  repeat first
    [ rewrite lookup_insert_eq
    | rewrite lookup_delete_eq
    | rewrite lookup_insert_ne by discriminate
    | rewrite lookup_delete_ne by discriminate ].

Lemma cancel_removes h st : h ∉ pending (cancelAnimationFrame h st).
Proof.
  fields. rewrite list_elem_of_filter. intros [Hp _].
  rewrite Pos.eqb_refl in Hp. exact Hp.
Qed.

Lemma cancel_keeps h h' st :
  h' ∈ pending st -> h' <> h -> h' ∈ pending (cancelAnimationFrame h st).
Proof.
  intros Hin Hne. fields. apply list_elem_of_filter. split; [| exact Hin].
  apply Pos.eqb_neq in Hne. rewrite Hne. exact I.
Qed.

Lemma stopAnimation_raf st : raf (stopAnimation st) = None.
Proof.
  unfold stopAnimation. destruct (raf st) eqn:E; [reflexivity | exact E].
Qed.

Lemma stopAnimation_cancelled st h : raf st = Some h -> h ∉ pending (stopAnimation st).
Proof.
  intros E. unfold stopAnimation. rewrite E. apply cancel_removes.
Qed.

Lemma stopAnimation_others st h' :
  h' ∈ pending st -> raf st <> Some h' -> h' ∈ pending (stopAnimation st).
Proof.
  intros Hin Hne. unfold stopAnimation. destruct (raf st) as [h |] eqn:E; [| exact Hin].
  apply (cancel_keeps h h' st Hin). congruence.
Qed.

Lemma stopAnimation_keeps st :
  _t (stopAnimation st) = _t st /\
  t0 (stopAnimation st) = t0 st /\
  _tstop (stopAnimation st) = _tstop st /\
  _fadeDuration (stopAnimation st) = _fadeDuration st /\
  style (stopAnimation st) = style st /\
  isHidden (stopAnimation st) = isHidden st /\
  wasDestroyed (stopAnimation st) = wasDestroyed st /\
  maxFPS (stopAnimation st) = maxFPS st /\
  next_handle (stopAnimation st) = next_handle st.
Proof.
  unfold stopAnimation. destruct (raf st); repeat split.
Qed.

(** X3: [stopAnimation] cancels the outstanding request and nothing else.
    Afterwards the controller is not animating and its handle is no longer
    in the host's list, the other requests of the list are still there, the
    clock, the reference time, the StopMark, the fade and the style are
    untouched, and stopping again changes nothing. *)
Theorem stopAnimation_cancels (st : State) :
  let s := stopAnimation st in
  isAnimating s = false /\
  (forall h, raf st = Some h -> h ∉ pending s) /\
  (forall h', h' ∈ pending st -> raf st <> Some h' -> h' ∈ pending s) /\
  _t s = _t st /\ t0 s = t0 st /\ _tstop s = _tstop st /\
  _fadeDuration s = _fadeDuration st /\ style s = style st /\
  stopAnimation s = s.
Proof.
  intros s. subst s.
  destruct (stopAnimation_keeps st) as (Kt & K0 & Ks & Kf & Ky & _).
  split; [unfold isAnimating; rewrite stopAnimation_raf; reflexivity |].
  split; [intros h; apply stopAnimation_cancelled |].
  split; [intros h'; apply stopAnimation_others |].
  repeat (split; [assumption |]).
  unfold stopAnimation at 1. rewrite stopAnimation_raf. reflexivity.
Qed.

(** What a frame leaves alone, beyond the clock fields. *)
Lemma frame_keeps_more now st :
  isHidden (frame now st) = isHidden st /\
  forceFallback_ (frame now st) = forceFallback_ st /\
  observer (frame now st) = observer st /\
  forall k : string, k <> "--t"%string -> style (frame now st) !! k = style st !! k.
Proof.
  unfold frame.
  destruct (wasDestroyed st); [repeat split |].
  destruct (JS.gtb (maxFPS st) 0 && negb (shouldStop st));
    destruct (JS.gtb _ 0 && below_interval _ _);
    repeat split; intros k Hk; fields; try reflexivity;
    apply lookup_insert_ne; congruence.
Qed.

Lemma toFixed3_proper x y : x == y -> JS.toFixed3 x = JS.toFixed3 y.
Proof.
  intros E. unfold JS.toFixed3, JS.ltb.
  assert (Ef : Qfloor (Qabs x * 1000 + (1 # 2)) = Qfloor (Qabs y * 1000 + (1 # 2))).
  { apply Qfloor_comp. rewrite (Qabs_wd x y E). reflexivity. }
  assert (El : Qle_bool 0 x = Qle_bool 0 y) by (apply Qleb_comp; [reflexivity | exact E]).
  rewrite Ef, El. reflexivity.
Qed.

(** The state [reveal] stops when the fade is not positive. *)
Lemma reveal_unanimated host animate st :
  isCSSHoudiniSupported host = true -> forceFallback_ st = false ->
  parseFadeDuration host (default (IsBool true) animate) <= 0 ->
  reveal host animate st =
  stopAnimation
    (set_tstop (Some (_t st))
       (set_fadeDuration (parseFadeDuration host (default (IsBool true) animate))
          (with_isHidden false st))).
Proof.
  intros Hh Hf Hd. unfold reveal. cbn [forceFallback_ with_isHidden].
  rewrite Hh, Hf. cbn [negb orb].
  apply leb_le in Hd. rewrite Hd. reflexivity.
Qed.

(** X4: a reveal without animation stops at once.  On the paint path,
    when the fade duration that [reveal] computes is not positive
    ([animate: false], a duration of 0, or any value under reduced
    motion), the controller is not animating when [reveal] returns, its
    outstanding request is cancelled, the StopMark is the clock value and
    is published, and the clock is not moved. *)
Theorem reveal_without_animation (host : Host) (animate : option NumOrBool) (st : State) :
  isCSSHoudiniSupported host = true ->
  forceFallback_ st = false ->
  parseFadeDuration host (default (IsBool true) animate) <= 0 ->
  let s := reveal host animate st in
  isHidden s = false /\
  isAnimating s = false /\
  (forall h, raf st = Some h -> h ∉ pending s) /\
  _tstop s = Some (_t st) /\
  style s !! "--t-stop"%string = Some (Css.Fixed3 (JS.toFixed3 (_t st))) /\
  style s !! "--fade"%string =
    Some (Css.Seconds (parseFadeDuration host (default (IsBool true) animate))) /\
  _t s = _t st.
Proof.
  intros Hh Hf Hd s. subst s.
  rewrite (reveal_unanimated host animate st Hh Hf Hd).
  set (x := set_tstop (Some (_t st)) _).
  destruct (stopAnimation_keeps x) as (Kt & _ & Ks & _ & Ky & Kh & _).
  rewrite Kh, Ks, Ky, Kt.
  split; [reflexivity |].
  split; [unfold isAnimating; rewrite stopAnimation_raf; reflexivity |].
  split; [intros h E; apply stopAnimation_cancelled; exact E |].
  split; [reflexivity |].
  subst x. fields.
  split; [lookups; reflexivity |].
  split; [lookups; reflexivity | reflexivity].
Qed.

Lemma reveal_without_animation_witness :
  isAnimating (reveal Scenario.page (Some (IsBool false)) Scenario.running) = false /\
  _tstop (reveal Scenario.page (Some (IsBool false)) Scenario.running)
    = Some (_t Scenario.running).
Proof.
  destruct (reveal_without_animation Scenario.page (Some (IsBool false)) Scenario.running)
    as (_ & Ha & _ & Hs & _).
  - reflexivity.
  - reflexivity.
  - apply Qle_bool_iff. reflexivity.
  - split; [exact Ha | exact Hs].
Defined.

(** X5: [hide] restarts the clock.  On the paint path, for a live
    controller with a positive rate, [hide] marks the content hidden,
    clears the StopMark and its channel, sets the clock to 0 and publishes
    it, takes [now] as the reference time, publishes the fade, and leaves
    exactly one more frame request with the host than before: a request
    made by an earlier [hide] is not cancelled. *)
Theorem hide_restarts (host : Host) (animate : option NumOrBool) (now : Q) (st : State) :
  isCSSHoudiniSupported host = true ->
  forceFallback_ st = false ->
  wasDestroyed st = false ->
  0 < maxFPS st ->
  let s := hide host animate now st in
  isHidden s = true /\
  _tstop s = None /\ style s !! "--t-stop"%string = None /\
  _t s == 0 /\ style s !! "--t"%string = Some (Css.Fixed3 0) /\
  t0 s = now /\
  _fadeDuration s = parseFadeDuration host (default (IsBool true) animate) /\
  style s !! "--fade"%string =
    Some (Css.Seconds (parseFadeDuration host (default (IsBool true) animate))) /\
  pending s = pending st ++ [next_handle st] /\
  raf s = Some (next_handle st).
Proof.
  intros Hh Hf Hd Hr s.
  assert (E : s = startAnimation now
                    (set_t 0 (set_tstop None
                       (set_fadeDuration (parseFadeDuration host (default (IsBool true) animate))
                          (with_isHidden true st))))).
  { subst s. unfold hide. cbn [forceFallback_ with_isHidden].
    rewrite Hh, Hf. reflexivity. }
  rewrite E. clear E s.
  set (x := set_t 0 _).
  assert (Hx : wasDestroyed x = false) by exact Hd.
  destruct (start_never_skips now x Hx) as (S0 & St & Sy).
  unfold startAnimation in *.
  destruct (frame_keeps now (with_t0 now x)) as (_ & _ & Ks & Kf).
  destruct (frame_keeps_more now (with_t0 now x)) as (Kh & _ & _ & Ky).
  destruct (frame_requests now (with_t0 now x)) as (Hq & Hraf);
    [exact Hd | exact Hr | reflexivity |].
  rewrite Kh, Ks, Kf, S0, St, Sy, Hq, Hraf, !Ky by discriminate.
  subst x. fields.
  assert (Z0 : 0 + (now - now) / 1000 == 0) by field.
  rewrite (toFixed3_proper _ 0 Z0).
  repeat split; try reflexivity; try exact Z0; lookups; reflexivity.
Qed.

Lemma hide_restarts_witness :
  pending (hide Scenario.page None 700 Scenario.running)
    = pending Scenario.running ++ [next_handle Scenario.running] /\
  _t (hide Scenario.page None 700 Scenario.running) == 0.
Proof.
  destruct (hide_restarts Scenario.page None 700 Scenario.running)
    as (_ & _ & _ & Ht & _ & _ & _ & _ & Hq & _).
  - reflexivity.
  - reflexivity.
  - reflexivity.
  - reflexivity.
  - split; [exact Hq | exact Ht].
Defined.

End StartStop.

(** ** Configuration *)

Section Configuration.
Import Controller.

Ltac fields :=
  cbn [maxFPS forceFallback_ wasDestroyed isHidden _fadeDuration _t t0 _tstop raf observer
       style next_handle pending
       with_maxFPS with_forceFallback with_wasDestroyed with_isHidden with_fadeDuration
       with_t with_t0 with_tstop with_raf with_observer with_style with_frames
       setProperty removeProperty set_tstop set_t set_fadeDuration
       requestAnimationFrame cancelAnimationFrame useBackgroundStyle].

Ltac lookups :=
  repeat first
    [ rewrite lookup_insert_eq
    | rewrite lookup_delete_eq
    | rewrite lookup_insert_ne by discriminate
    | rewrite lookup_delete_ne by discriminate ].

(** Split [update] on a live controller into its branches. *)
Ltac update_cases host layout o :=
  unfold update;
  match goal with H : wasDestroyed _ = false |- _ => rewrite H end;
  destruct (negb (isCSSHoudiniSupported host) || default false (forceFallback o));
  [ | destruct (display_inline layout); cbn [negb];
      [ destruct (min_height (line_heights layout))
      | destruct (JS.gtb (rect_width layout * rect_height layout)
                         (BLOCK_MAX_TILE * BLOCK_MAX_TILE)) ];
      (destruct (accentColor o) as [c |];
       [ destruct (String.eqb c ""); [| destruct (colord_toHsl host c) as [[hh ss] ll]] | ]) ].

Lemma update_live host layout o st :
  wasDestroyed st = false -> exists st1, update host layout o st = Ok st1.
Proof.
  intros Hd. update_cases host layout o; eexists; reflexivity.
Qed.

Lemma update_fields host layout o st st1 :
  update host layout o st = Ok st1 ->
  wasDestroyed st = false /\
  maxFPS st1 = (if prefersReducedMotion host then 0 else default DEFAULT_fps (fps o)) /\
  forceFallback_ st1 = default false (forceFallback o) /\
  wasDestroyed st1 = false /\
  isHidden st1 = isHidden st /\ _fadeDuration st1 = _fadeDuration st /\
  _t st1 = _t st /\ t0 st1 = t0 st /\ _tstop st1 = _tstop st /\
  raf st1 = raf st /\ observer st1 = observer st /\
  next_handle st1 = next_handle st /\ pending st1 = pending st.
Proof.
  destruct (wasDestroyed st) eqn:Hd.
  { unfold update. rewrite Hd. discriminate. }
  update_cases host layout o; intros [= <-]; fields; repeat split; exact Hd.
Qed.

Lemma update_clock_channels host layout o st st1 :
  update host layout o st = Ok st1 ->
  style st1 !! "--t"%string = style st !! "--t"%string /\
  style st1 !! "--t-stop"%string = style st !! "--t-stop"%string /\
  style st1 !! "--fade"%string = style st !! "--fade"%string.
Proof.
  destruct (wasDestroyed st) eqn:Hd.
  { unfold update. rewrite Hd. discriminate. }
  update_cases host layout o; intros [= <-]; fields; lookups; repeat split.
Qed.




(** A frame at rate 0 requests nothing, and does not move the clock when
    time has not gone back. *)
Lemma frame_zero_rate now st :
  maxFPS st = 0 ->
  pending (frame now st) = pending st /\
  raf (frame now st) = raf st /\
  next_handle (frame now st) = next_handle st /\
  (t0 st <= now -> _t (frame now st) == _t st /\ t0 (frame now st) <= now).
Proof.
  intros Hz. unfold frame.
  destruct (wasDestroyed st).
  { do 3 (split; [reflexivity |]). intros H. split; [reflexivity | exact H]. }
  cbv zeta. rewrite Hz.
  change (JS.gtb 0 0) with false. cbn [andb].
  assert (B : forall dt, below_interval dt 0 = true) by reflexivity.
  rewrite Hz, B, andb_true_r.
  destruct (JS.gtb (now - t0 st) 0) eqn:G.
  - do 3 (split; [reflexivity |]). intros H. split; [reflexivity | exact H].
  - apply gtb_le in G. fields. do 3 (split; [reflexivity |]).
    intros H. split.
    + assert (E : now - t0 st == 0) by lra. rewrite div1000, E. ring.
    + lra.
Qed.

Lemma zero_rate_frames (nows : list Q) :
  forall s, maxFPS s = 0 -> Cases.nondecreasing_from (t0 s) nows ->
            _t (Stated.frames nows s) == _t s /\
            pending (Stated.frames nows s) = pending s.
Proof.
  induction nows as [| now nows IH]; intros s Hz Hn; cbn [Stated.frames fold_left].
  - split; reflexivity.
  - destruct Hn as [Hnow Hrest].
    destruct (frame_zero_rate now s Hz) as (Hp & _ & _ & Hc).
    destruct (Hc Hnow) as [Ht H0].
    destruct (frame_keeps now s) as (_ & Kf & _).
    destruct (IH (frame now s)) as [I1 I2].
    + rewrite Kf. exact Hz.
    + apply (nondecreasing_from_le _ now); assumption.
    + unfold Stated.frames in I1, I2. rewrite I1, I2. split; assumption.
Qed.

(** X7: under reduced motion the scene is static.  When the user prefers
    reduced motion, [update] sets the rate to 0 whatever [fps] says; a
    later [hide] then requests no frame, and on the paint path its fade is
    0 and no sequence of frames with non-decreasing times moves the clock
    or requests a frame. *)
Theorem reduced_motion_static (host : Host) (layout : Layout) (o : Options) (st : State) :
  prefersReducedMotion host = true ->
  wasDestroyed st = false ->
  exists st1,
    update host layout o st = Ok st1 /\ maxFPS st1 = 0 /\
    forall animate now,
      let s := hide host animate now st1 in
      pending s = pending st /\ raf s = raf st /\
      (isCSSHoudiniSupported host = true -> forceFallback_ st1 = false ->
       _fadeDuration s = 0 /\ _t s == 0 /\
       forall nows, Cases.nondecreasing_from now nows ->
                    _t (Stated.frames nows s) == 0 /\
                    pending (Stated.frames nows s) = pending st).
Proof.
  intros Hr Hd. destruct (update_live host layout o st Hd) as [st1 E].
  exists st1. split; [exact E |].
  destruct (update_fields host layout o st st1 E)
    as (_ & Km & _ & Kd & _ & _ & _ & _ & _ & Kr & _ & _ & Kp).
  rewrite Hr in Km. split; [exact Km |].
  intros animate now s. subst s. unfold hide. cbn [forceFallback_ with_isHidden].
  destruct (negb (isCSSHoudiniSupported host) || forceFallback_ st1) eqn:Path.
  - fields. split; [exact Kp |]. split; [exact Kr |].
    intros Hh Hf. rewrite Hh, Hf in Path. discriminate Path.
  - unfold parseFadeDuration. rewrite Hr.
    set (x := set_t 0 _). unfold startAnimation.
    assert (Hx : maxFPS (with_t0 now x) = 0) by exact Km.
    destruct (frame_zero_rate now (with_t0 now x) Hx) as (Hp & Hraf & _ & Hc).
    destruct (Hc ltac:(cbn [t0 with_t0]; lra)) as [Ht H0].
    destruct (frame_keeps now (with_t0 now x)) as (_ & Kf & _ & Kfade).
    rewrite Hp, Hraf.
    split; [exact Kp |]. split; [exact Kr |].
    intros _ _. rewrite Kfade.
    split; [reflexivity |]. split; [exact Ht |].
    intros nows Hn.
    destruct (zero_rate_frames nows (frame now (with_t0 now x))) as [I1 I2].
    + rewrite Kf. exact Hx.
    + apply (nondecreasing_from_le _ now); assumption.
    + rewrite I1, I2, Hp. split; [exact Ht | exact Kp].
Qed.

Lemma reduced_motion_static_witness :
  exists st1,
    update Cases.reduced_page Scenario.block_300x100 no_options Scenario.constructed = Ok st1 /\
    maxFPS st1 = 0 /\
    pending (Stated.frames [100; 200; 300] (hide Cases.reduced_page None 0 st1))
      = pending Scenario.constructed.
Proof.
  destruct (reduced_motion_static Cases.reduced_page Scenario.block_300x100 no_options
              Scenario.constructed) as (st1 & E & Hm & Hh).
  - reflexivity.
  - reflexivity.
  - exists st1. split; [exact E |]. split; [exact Hm |].
    destruct (Hh None 0) as (_ & _ & Hp).
    destruct Hp as (_ & _ & Hf).
    + reflexivity.
    + destruct (update_fields _ _ _ _ _ E) as (_ & _ & Kf & _). exact Kf.
    + destruct (Hf [100; 200; 300]) as [_ Hq]; [| exact Hq].
      cbn. repeat split; apply Qle_bool_iff; reflexivity.
Defined.

End Configuration.

(** ** The fallback path, teardown and the viewport *)

Section Lifecycle.
Import Controller.

Ltac fields :=
  cbn [maxFPS forceFallback_ wasDestroyed isHidden _fadeDuration _t t0 _tstop raf observer
       style next_handle pending
       with_maxFPS with_forceFallback with_wasDestroyed with_isHidden with_fadeDuration
       with_t with_t0 with_tstop with_raf with_observer with_style with_frames
       setProperty removeProperty set_tstop set_t set_fadeDuration
       requestAnimationFrame cancelAnimationFrame useBackgroundStyle].

(** X8: without the paint API, or with the fallback forced, [hide] and
    [reveal] only switch the background: [hide] sets it to
    [var(--fallback)] and [reveal] removes it again, so that a [hide]
    followed by a [reveal] leaves the style without a background and
    otherwise as it was; neither touches the clock, the StopMark or the
    frame requests, and no animation starts. *)
Theorem fallback_switches_background (host : Host) (a1 a2 : option NumOrBool) (now : Q)
    (st : State) :
  negb (isCSSHoudiniSupported host) || forceFallback_ st = true ->
  let h := hide host a1 now st in
  let r := reveal host a2 h in
  isHidden h = true /\
  style h = <["background"%string := Css.Keyword "var(--fallback)"]> (style st) /\
  isHidden r = false /\
  style r = delete "background"%string (style st) /\
  _t r = _t st /\ t0 r = t0 st /\ _tstop r = _tstop st /\
  _fadeDuration r = _fadeDuration st /\
  raf r = raf st /\ pending r = pending st /\
  raf h = raf st /\ pending h = pending st.
Proof.
  intros Hp h r.
  assert (Eh : h = setProperty "background" (Css.Keyword "var(--fallback)")
                     (with_isHidden true st)).
  { subst h. unfold hide. cbn [forceFallback_ with_isHidden]. rewrite Hp. reflexivity. }
  assert (Er : r = removeProperty "background" (with_isHidden false h)).
  { subst r. unfold reveal. cbn [forceFallback_ with_isHidden].
    rewrite Eh at 1. fields. rewrite Hp. reflexivity. }
  rewrite Er, Eh. fields.
  rewrite delete_insert_eq.
  repeat split.
Qed.

Lemma fallback_switches_background_witness :
  style (reveal Cases.legacy_page None
           (hide Cases.legacy_page None 0 (fresh ∅ 1 [])))
    = delete "background"%string (style (fresh ∅ 1 [])).
Proof.
  destruct (fallback_switches_background Cases.legacy_page None None 0 (fresh ∅ 1 []))
    as (_ & _ & _ & Hs & _).
  - reflexivity.
  - exact Hs.
Defined.

(** Removing a list of properties: the fields are kept, the names of the
    list are gone and the other names are as before. *)
Lemma remove_all_fields (l : list string) :
  forall s,
    let s' := fold_left (fun s p => removeProperty p s) l s in
    wasDestroyed s' = wasDestroyed s /\ raf s' = raf s /\ observer s' = observer s /\
    pending s' = pending s /\ _t s' = _t s /\ _tstop s' = _tstop s /\
    maxFPS s' = maxFPS s.
Proof.
  induction l as [| p l IH]; intros s; cbn [fold_left]; [repeat split |].
  apply (IH (removeProperty p s)).
Qed.

Lemma remove_all_lookup (l : list string) :
  forall s k,
    style (fold_left (fun s p => removeProperty p s) l s) !! k
    = if decide (k ∈ l) then None else style s !! k.
Proof.
  induction l as [| p l IH]; intros s k; cbn [fold_left].
  - destruct (decide (k ∈ [])) as [Hin | _]; [| reflexivity].
    apply elem_of_nil in Hin. contradiction.
  - rewrite IH. fields.
    destruct (decide (k ∈ l)) as [Hl | Hl].
    + rewrite decide_True by (right; exact Hl). reflexivity.
    + destruct (decide (k = p)) as [-> | Hne].
      * rewrite decide_True by left. apply lookup_delete_eq.
      * rewrite decide_False.
        -- apply lookup_delete_ne. congruence.
        -- intros Hin. apply elem_of_cons in Hin. tauto.
Qed.

Lemma destroy_unfold st :
  destroy st =
  (let s2 := fold_left (fun s p => removeProperty p s) Cases.removed_on_destroy
               (stopAnimation (with_wasDestroyed true st)) in
   if observer s2 then with_observer false s2 else s2).
Proof. reflexivity. Qed.

Lemma destroy_state st :
  wasDestroyed (destroy st) = true /\
  raf (destroy st) = None /\
  observer (destroy st) = false /\
  pending (destroy st) = pending (stopAnimation st) /\
  _t (destroy st) = _t st /\ _tstop (destroy st) = _tstop st /\
  forall k, style (destroy st) !! k
            = if decide (k ∈ Cases.removed_on_destroy) then None else style st !! k.
Proof.
  rewrite destroy_unfold.
  set (s1 := stopAnimation (with_wasDestroyed true st)).
  assert (H1 : wasDestroyed s1 = true /\ raf s1 = None /\
               pending s1 = pending (stopAnimation st) /\
               _t s1 = _t st /\ _tstop s1 = _tstop st /\ style s1 = style st).
  { subst s1. unfold stopAnimation. cbn [raf with_wasDestroyed].
    destruct (raf st) eqn:Er; repeat split; reflexivity || exact Er. }
  clearbody s1. destruct H1 as (Hd & Hr & Hp & Ht & Hs & Hy).
  pose proof (remove_all_fields Cases.removed_on_destroy s1) as F.
  pose proof (remove_all_lookup Cases.removed_on_destroy s1) as K.
  cbv zeta in F |- *.
  set (s2 := fold_left _ Cases.removed_on_destroy s1) in *.
  clearbody s2. destruct F as (Fd & Fr & Fo & Fp & Ft & Fs & _).
  assert (K' : forall k, style s2 !! k
                = if decide (k ∈ Cases.removed_on_destroy) then None else style st !! k).
  { intros k. rewrite K, Hy. reflexivity. }
  destruct (observer s2) eqn:Eo; fields;
    repeat split; try congruence; exact K'.
Qed.

(** X9: [destroy] leaves nothing running.  Afterwards the controller is
    marked destroyed, is not animating, has no observer, and its
    outstanding request is out of the host's list; the properties
    [background], [--t], [--t-stop], [--fade], [--gap], [--words] and
    [--density] are gone from the style and every other property
    ([--accent] and [--fallback] among them) is as it was; and every
    later frame callback returns without any effect. *)
Theorem destroy_cleans (st : State) :
  let s := destroy st in
  wasDestroyed s = true /\ isAnimating s = false /\ observer s = false /\
  (forall h, raf st = Some h -> h ∉ pending s) /\
  (forall p, p ∈ Cases.removed_on_destroy -> style s !! p = None) /\
  (forall p, p ∉ Cases.removed_on_destroy -> style s !! p = style st !! p) /\
  (forall now, frame now s = s).
Proof.
  intros s. subst s.
  destruct (destroy_state st) as (Hd & Hr & Ho & Hp & _ & _ & Hk).
  split; [exact Hd |].
  split; [unfold isAnimating; rewrite Hr; reflexivity |].
  split; [exact Ho |].
  split; [intros h E; rewrite Hp; apply stopAnimation_cancelled; exact E |].
  split; [intros p Hin; rewrite Hk, decide_True by exact Hin; reflexivity |].
  split; [intros p Hin; rewrite Hk, decide_False by exact Hin; reflexivity |].
  intros now. apply frame_destroyed. exact Hd.
Qed.



End Lifecycle.

(** ** Construction and sizing *)

Section Sizing.
Import Controller.

Ltac fields :=
  cbn [maxFPS forceFallback_ wasDestroyed isHidden _fadeDuration _t t0 _tstop raf observer
       style next_handle pending
       with_maxFPS with_forceFallback with_wasDestroyed with_isHidden with_fadeDuration
       with_t with_t0 with_tstop with_raf with_observer with_style with_frames
       setProperty removeProperty set_tstop set_t set_fadeDuration
       requestAnimationFrame cancelAnimationFrame useBackgroundStyle].

Ltac lookups :=
  repeat first
    [ rewrite lookup_insert_eq
    | rewrite lookup_delete_eq
    | rewrite lookup_insert_ne by discriminate
    | rewrite lookup_delete_ne by discriminate ].

(** The last step of [update]: the accent is written or removed. *)
Ltac accent_cases host o :=
  destruct (accentColor o) as [c |];
  [ destruct (String.eqb c ""); [| destruct (colord_toHsl host c) as [[hh ss] ll]] | ].

(** X11: a new controller is idle.  Whatever the page, the layout and
    the options, the constructor does not throw; the controller it
    returns is live, not hidden and not animating, has requested no
    frame, reads a clock of 0 and holds a StopMark of 0 that is published
    as [--t-stop]; its rate is [fps] (24 by default), or 0 under reduced
    motion, and it observes the viewport only when [onlyInViewport] is
    true and the page has an IntersectionObserver. *)
Theorem construct_idle (host : Host) (layout : Layout) (o : Options)
    (css : gmap string Css.value) (h : positive) (l : list positive) :
  exists st,
    construct host layout o css h l = Ok st /\
    wasDestroyed st = false /\ isHidden st = false /\ isAnimating st = false /\
    pending st = l /\ next_handle st = h /\
    _t st = 0 /\ _tstop st = Some 0 /\
    style st !! "--t-stop"%string = Some (Css.Fixed3 0) /\
    maxFPS st = (if prefersReducedMotion host then 0 else default 24 (fps o)) /\
    observer st = match onlyInViewport o with
                  | Some true => hasIntersectionObserver host
                  | _ => false
                  end.
Proof.
  unfold construct.
  set (st0 := set_tstop (Some 0) (fresh css h l)).
  assert (Hd : wasDestroyed st0 = false) by reflexivity.
  destruct (update_live host layout o st0 Hd) as [st1 E]. rewrite E.
  destruct (update_fields host layout o st0 st1 E)
    as (_ & Km & _ & Kd & Kh & _ & Kt & _ & Ks & Kr & Ko & Kn & Kp).
  destruct (update_clock_channels host layout o st0 st1 E) as (_ & C2 & _).
  assert (Hc : style st0 !! "--t-stop"%string = Some (Css.Fixed3 0)).
  { subst st0. fields. apply lookup_insert_eq. }
  eexists. split; [reflexivity |].
  destruct (onlyInViewport o) as [[|] |]; unfold watchInViewport, isAnimating;
    try destruct (hasIntersectionObserver host); fields;
    rewrite ?Kd, ?Kh, ?Kr, ?Kp, ?Kn, ?Kt, ?Ks, ?C2, ?Km, ?Ko;
    repeat split; exact Hc.
Qed.

(** The least of the line heights. *)
Lemma fold_min_le (hs : list Q) :
  forall a, fold_left Qmin hs a <= a /\ Forall (fun x => fold_left Qmin hs a <= x) hs.
Proof.
  induction hs as [| x hs IH]; intros a; cbn [fold_left].
  - split; [lra | constructor].
  - destruct (IH (Qmin a x)) as [H1 H2].
    pose proof (Q.le_min_l a x). pose proof (Q.le_min_r a x).
    split; [lra |]. constructor; [lra | exact H2].
Qed.

Lemma min_height_least heights m :
  min_height heights = Some m -> Forall (fun x => m <= x) heights.
Proof.
  destruct heights as [| a hs]; [discriminate |].
  intros [= <-]. destruct (fold_min_le hs a) as [H1 H2].
  constructor; assumption.
Qed.

Lemma min_height_none heights : min_height heights = None -> heights = [].
Proof. destruct heights; [reflexivity | discriminate]. Qed.

(** X12: sizing of a block element.  On the paint path, for a live
    controller and an element that is not inline, [update] never mimics
    words and publishes the density; when the area of the element exceeds
    293 by 293 it tiles the background with tiles of the element's size
    capped at 293 on each side and does not write [--gap]; otherwise the
    background is a single untiled paint and the gap it publishes, the
    same on both axes and read back as such by the worklet, is the floor
    of the least of the [gap] option, an eighth of the width and an eighth
    of the height. *)
Theorem update_block_sizing (host : Host) (layout : Layout) (o : Options) (st : State) :
  wasDestroyed st = false ->
  isCSSHoudiniSupported host = true ->
  default false (forceFallback o) = false ->
  display_inline layout = false ->
  let w := rect_width layout in
  let h := rect_height layout in
  let g := Number_ (default DEFAULT_gap (gap o)) in
  exists st1,
    update host layout o st = Ok st1 /\
    style st1 !! "--words"%string = Some (Css.Flag false) /\
    style st1 !! "--density"%string = Some (Css.Num (default DEFAULT_density (density o))) /\
    (293 * 293 < w * h ->
     style st1 !! "background"%string
       = Some (Css.Paint true (Css.Px (Qmin w 293)) (Css.Px (Qmin h 293))) /\
     style st1 !! "--gap"%string = style st !! "--gap"%string) /\
    (w * h <= 293 * 293 ->
     style st1 !! "background"%string = Some (Css.Paint false Css.Auto Css.Auto) /\
     exists c : Z,
       style st1 !! "--gap"%string = Some (Css.Gap c c) /\
       Worklet.read_gap (style st1) = (inject_Z c, inject_Z c) /\
       c = Qfloor (Qmin (Qmin g (w / 8)) (h / 8)) /\
       inject_Z c <= g /\ inject_Z c <= w / 8 /\ inject_Z c <= h / 8).
Proof.
  intros Hd Hh Hf Hi w h g.
  unfold update. rewrite Hd, Hh, Hf, Hi. cbn [negb orb].
  fold w h g.
  destruct (JS.gtb (w * h) (BLOCK_MAX_TILE * BLOCK_MAX_TILE)) eqn:G.
  - apply gtb_gt in G.
    accent_cases host o; eexists; (split; [reflexivity |]); fields;
      (split; [lookups; reflexivity |]); (split; [lookups; reflexivity |]);
      (split; [intros _; split; lookups; reflexivity |]);
      intros Hle; exfalso; unfold BLOCK_MAX_TILE in G; lra.
  - apply gtb_le in G.
    pose proof (Qfloor_le (Qmin (Qmin g (w / 8)) (h / 8))) as Hfl.
    pose proof (Q.le_min_l (Qmin g (w / 8)) (h / 8)) as M1.
    pose proof (Q.le_min_r (Qmin g (w / 8)) (h / 8)) as M2.
    pose proof (Q.le_min_l g (w / 8)) as M3.
    pose proof (Q.le_min_r g (w / 8)) as M4.
    accent_cases host o; eexists; (split; [reflexivity |]); fields;
      (split; [lookups; reflexivity |]); (split; [lookups; reflexivity |]);
      (split; [intros Hgt; exfalso; unfold BLOCK_MAX_TILE in G; lra |]);
      intros _; (split; [lookups; reflexivity |]);
      eexists; (split; [lookups; reflexivity |]);
      (split; [unfold Worklet.read_gap, Worklet.getCSSVar; lookups; reflexivity |]);
      (split; [reflexivity |]);
      unfold JS.Math_floor, JS.Math_min, GAP_RATIO; repeat split; lra.
Qed.

Lemma update_block_sizing_witness :
  exists st1,
    update Scenario.page Scenario.block_300x100 no_options Scenario.constructed = Ok st1 /\
    style st1 !! "--words"%string = Some (Css.Flag false).
Proof.
  destruct (update_block_sizing Scenario.page Scenario.block_300x100 no_options
              Scenario.constructed) as (st1 & E & Hw & _).
  - reflexivity.
  - reflexivity.
  - reflexivity.
  - reflexivity.
  - exists st1. split; [exact E | exact Hw].
Defined.

(** X13: sizing of an inline element.  On the paint path, for a live
    controller and an inline element, [update] tiles the background with
    tiles 333 wide and as high as the lowest line, publishes the
    [mimicWords] option and the density, and publishes a gap on the
    second axis only: the floor of the lesser of the [gap] option and an
    eighth of that height; with no client rectangle at all the height is
    printed as Infinity and the gap is the floor of the option. *)
Theorem update_inline_sizing (host : Host) (layout : Layout) (o : Options) (st : State) :
  wasDestroyed st = false ->
  isCSSHoudiniSupported host = true ->
  default false (forceFallback o) = false ->
  display_inline layout = true ->
  let g := Number_ (default DEFAULT_gap (gap o)) in
  exists st1,
    update host layout o st = Ok st1 /\
    style st1 !! "--words"%string
      = Some (Css.Flag (default DEFAULT_mimicWords (mimicWords o))) /\
    style st1 !! "--density"%string = Some (Css.Num (default DEFAULT_density (density o))) /\
    match min_height (line_heights layout) with
    | Some m =>
        Forall (fun x => m <= x) (line_heights layout) /\
        style st1 !! "background"%string
          = Some (Css.Paint true (Css.Px 333) (Css.Px m)) /\
        exists c : Z,
          style st1 !! "--gap"%string = Some (Css.Gap 0 c) /\
          Worklet.read_gap (style st1) = (0, inject_Z c) /\
          c = Qfloor (Qmin (m / 8) g) /\
          inject_Z c <= m / 8 /\ inject_Z c <= g
    | None =>
        line_heights layout = [] /\
        style st1 !! "background"%string
          = Some (Css.Paint true (Css.Px 333) Css.PxInfinity) /\
        style st1 !! "--gap"%string = Some (Css.Gap 0 (Qfloor g))
    end.
Proof.
  intros Hd Hh Hf Hi g.
  unfold update. rewrite Hd, Hh, Hf, Hi. cbn [negb orb].
  fold g.
  destruct (min_height (line_heights layout)) as [m |] eqn:Em.
  - pose proof (min_height_least _ _ Em) as Hall.
    pose proof (Qfloor_le (Qmin (m / 8) g)) as Hfl.
    pose proof (Q.le_min_l (m / 8) g) as M1.
    pose proof (Q.le_min_r (m / 8) g) as M2.
    accent_cases host o; eexists; (split; [reflexivity |]); fields;
      (split; [lookups; reflexivity |]); (split; [lookups; reflexivity |]);
      (split; [exact Hall |]); (split; [lookups; reflexivity |]);
      eexists; (split; [lookups; reflexivity |]);
      (split; [unfold Worklet.read_gap, Worklet.getCSSVar; lookups; reflexivity |]);
      (split; [reflexivity |]);
      unfold JS.Math_floor, JS.Math_min, GAP_RATIO; split; lra.
  - pose proof (min_height_none _ Em) as Hnil.
    accent_cases host o; eexists; (split; [reflexivity |]); fields;
      (split; [lookups; reflexivity |]); (split; [lookups; reflexivity |]);
      (split; [exact Hnil |]); split; lookups; reflexivity.
Qed.

Lemma update_inline_sizing_witness :
  exists st1,
    update Scenario.page Cases.inline_two_lines no_options Scenario.constructed = Ok st1 /\
    style st1 !! "--gap"%string = Some (Css.Gap 0 2).
Proof.
  destruct (update_inline_sizing Scenario.page Cases.inline_two_lines no_options
              Scenario.constructed) as (st1 & E & _ & _ & Hm).
  - reflexivity.
  - reflexivity.
  - reflexivity.
  - reflexivity.
  - exists st1. split; [exact E |].
    change (min_height (line_heights Cases.inline_two_lines))
      with (Some (Qmin 18 20)) in Hm.
    destruct Hm as (_ & _ & c & Hg & _ & Hc & _).
    rewrite Hg, Hc. reflexivity.
Defined.

End Sizing.

(** ** The channel, read back *)

Section ChannelReadBack.
Import Worklet.

Ltac fields :=
  cbn [Controller.style Controller.with_style Controller.setProperty Controller.removeProperty
       Controller.set_t Controller.with_t Controller.useBackgroundStyle].

Ltac lookups :=
  repeat first
    [ rewrite lookup_insert_eq
    | rewrite lookup_delete_eq
    | rewrite lookup_insert_ne by discriminate
    | rewrite lookup_delete_ne by discriminate ].

Lemma toFixed3_near x : Qabs (inject_Z (JS.toFixed3 x) / 1000 - x) <= 1 # 2000.
Proof.
  unfold JS.toFixed3.
  pose proof (Qfloor_le (Qabs x * 1000 + (1 # 2))) as Hlo.
  pose proof (Qlt_floor (Qabs x * 1000 + (1 # 2))) as Hhi.
  rewrite inject_Z_plus in Hhi. change (inject_Z 1) with 1 in Hhi.
  set (n := Qfloor (Qabs x * 1000 + (1 # 2))) in *.
  apply Qabs_Qle_condition. rewrite div1000.
  destruct (JS.ltb x 0) eqn:Neg.
  - apply ltb_lt in Neg.
    rewrite (Qabs_neg x) in Hlo, Hhi by lra.
    rewrite inject_Z_opp. split; lra.
  - apply ltb_ge in Neg.
    rewrite (Qabs_pos x) in Hlo, Hhi by lra.
    split; lra.
Qed.

Lemma toFixed3_nonneg x : 0 <= x -> (0 <= JS.toFixed3 x)%Z.
Proof.
  intros Hx. unfold JS.toFixed3.
  assert (Neg : JS.ltb x 0 = false) by (apply ltb_ge; exact Hx).
  rewrite Neg.
  change 0%Z with (Qfloor 0). apply Qfloor_resp_le.
  pose proof (Qabs_nonneg x). lra.
Qed.

(** X14: the worklet reads the clock the controller wrote, to the
    millisecond.  Whatever value the controller gives the clock, what
    [paint] reads back as [worldt] from the style differs from it by at
    most half a thousandth, and is not negative when the clock is not. *)
Theorem clock_read_back (v : Q) (st : Controller.State) :
  let props := Controller.style (Controller.set_t v st) in
  Qabs (read_worldt props - v) <= 1 # 2000 /\
  (0 <= v -> 0 <= read_worldt props).
Proof.
  intros props.
  assert (E : read_worldt props = inject_Z (JS.toFixed3 v) / 1000).
  { subst props. unfold read_worldt, getCSSVar. fields. lookups. reflexivity. }
  rewrite E. split; [apply toFixed3_near |].
  intros Hv. pose proof (toFixed3_nonneg v Hv) as Hn.
  rewrite Zle_Qle in Hn. change (inject_Z 0) with 0 in Hn.
  rewrite div1000. lra.
Qed.

(** X15: the accent, from option to worklet.  On the paint path, when
    [update] is given a non-empty [accentColor] the worklet reads the hue
    and the saturation the colour library computed for it and the integer
    part of its lightness; when it is given none, or the empty string,
    the [--accent] property is removed and the worklet reads the default
    grey, hue 0, saturation 0, lightness 70, whatever accent was there
    before. *)
Theorem accent_read_back (host : Controller.Host) (layout : Controller.Layout)
    (o : Controller.Options) (st : Controller.State) :
  Controller.wasDestroyed st = false ->
  Controller.isCSSHoudiniSupported host = true ->
  default false (Controller.forceFallback o) = false ->
  exists st1,
    Controller.update host layout o st = Controller.Ok st1 /\
    read_accent (Controller.style st1) =
      match Controller.accentColor o with
      | Some c =>
          if String.eqb c "" then (0, 0, 70%Z)
          else let '(h, s, l) := Controller.colord_toHsl host c in (h, s, JS.trunc l)
      | None => (0, 0, 70%Z)
      end.
Proof.
  intros Hd Hh Hf.
  unfold Controller.update. rewrite Hd, Hh, Hf. cbn [negb orb].
  destruct (Controller.display_inline layout); cbn [negb];
    [ destruct (Controller.min_height (Controller.line_heights layout))
    | destruct (JS.gtb _ _) ];
    (destruct (Controller.accentColor o) as [c |];
     [ destruct (String.eqb c "");
       [| destruct (Controller.colord_toHsl host c) as [[hh ss] ll]] | ]);
    eexists; (split; [reflexivity |]);
    unfold read_accent, getCSSVar; fields; lookups; reflexivity.
Qed.

Lemma accent_read_back_witness :
  exists st1,
    Controller.update Scenario.page Scenario.block_300x100 Controller.no_options
      Scenario.constructed = Controller.Ok st1 /\
    read_accent (Controller.style st1) = (0, 0, 70%Z).
Proof.
  destruct (accent_read_back Scenario.page Scenario.block_300x100 Controller.no_options
              Scenario.constructed) as (st1 & E & Ha).
  - reflexivity.
  - reflexivity.
  - reflexivity.
  - exists st1. split; [exact E | exact Ha].
Defined.

End ChannelReadBack.

(** ** The particles of a paint *)

Section Particles.
Import Worklet.
Context `{HostMath}.

Ltac particle_field s :=
  rewrite particle_unfold; cbv zeta;
  cbn [fst x0 y0 v0mag size0 lightness v0 shape lifetime respawn phase];
  unfold Stated.nth_draw.

Lemma sizedev_cases env size props :
  sizedev (locals env size props) = 0 \/ sizedev (locals env size props) = 1 # 2.
Proof.
  cbn [sizedev locals]. destruct (JS.gtb (devicePixelRatio env) 1); auto.
Qed.

(** X16: where and how the particles of a paint are born.  Whatever the
    generator state, a particle drawn for a surface has a speed between 2
    and 12, an initial size between 1 and 1.5, a lifetime between 0.3 and
    1.5, a respawn gap between 0 and 1 and a phase between 0 and the sum
    of the two; and its origin lies between the gap and the surface
    dimension less the gap on each axis where the gap leaves room (twice
    the gap is at most the dimension). *)
Theorem drawn_particle_ranges (env : Env) (size : Q * Q) (props : gmap string Css.value)
    (s : Z) :
  let L := locals env size props in
  let p := fst (particle L s) in
  2 <= v0mag p <= 12 /\
  1 <= size0 p <= 3 # 2 /\
  3 # 10 <= lifetime p <= 3 # 2 /\
  0 <= respawn p <= 1 /\
  0 <= phase p <= lifetime p + respawn p /\
  (vgap L <= width L - vgap L -> vgap L <= x0 p <= width L - vgap L) /\
  (hgap L <= height L - hgap L -> hgap L <= y0 p <= height L - hgap L).
Proof.
  intros L p.
  pose proof (drawn_lifetime L s) as Hl. fold p in Hl.
  assert (Hr : 0 <= respawn p <= 1).
  { subst p. particle_field s.
    pose proof (lcgrand_between (Nat.iter 8 lcg_next s) 0 1) as [Hlo Hhi].
    rewrite Qabs_pos in Hhi by lra. split; lra. }
  split.
  { subst p. particle_field s.
    pose proof (lcgrand_between (Nat.iter 2 lcg_next s) (vmin L) (vmax L)) as [Hlo Hhi].
    change (vmin L) with 2 in *. change (vmax L) with 12 in *.
    rewrite Qabs_pos in Hhi by lra. split; lra. }
  split.
  { subst p. particle_field s.
    pose proof (lcgrand_between (Nat.iter 3 lcg_next s) 1 (1 + sizedev L)) as [Hlo Hhi].
    destruct (sizedev_cases env size props) as [E | E]; fold L in E; rewrite E in *;
      rewrite Qabs_pos in Hhi by lra; split; lra. }
  split; [exact Hl |]. split; [exact Hr |].
  split.
  { assert (E : phase p = fst (lcgrand 0 (lifetime p + respawn p) (Nat.iter 9 lcg_next s))).
    { subst p. rewrite particle_unfold. reflexivity. }
    rewrite E.
    pose proof (lcgrand_between (Nat.iter 9 lcg_next s) 0 (lifetime p + respawn p))
      as [Hlo Hhi].
    rewrite Qabs_pos in Hhi by lra. split; lra. }
  split.
  - intros Hroom. subst p. particle_field s.
    pose proof (lcgrand_between (Nat.iter 0 lcg_next s) (vgap L) (width L - vgap L))
      as [Hlo Hhi].
    rewrite Qabs_pos in Hhi by lra. split; lra.
  - intros Hroom. subst p. particle_field s.
    pose proof (lcgrand_between (Nat.iter 1 lcg_next s) (hgap L) (height L - hgap L))
      as [Hlo Hhi].
    rewrite Qabs_pos in Hhi by lra. split; lra.
Qed.

(** X17: no size deviation on low pixel ratios.  When the device pixel
    ratio is at most 1 every particle has an initial size of exactly 1,
    so that a drawn particle is as large as its envelope and never larger
    than 1. *)
Theorem low_ratio_unit_size (env : Env) (size : Q * Q) (props : gmap string Css.value)
    (s : Z) :
  devicePixelRatio env <= 1 ->
  let L := locals env size props in
  let p := fst (particle L s) in
  size0 p == 1 /\
  forall r, render_state L p = Some r ->
            Worklet.size r == visibility r /\ (0 <= age r -> Worklet.size r <= 1).
Proof.
  intros Hr L p.
  assert (E0 : sizedev L = 0).
  { cbn [sizedev locals L]. apply gtb_le in Hr. rewrite Hr. reflexivity. }
  assert (E1 : size0 p == 1).
  { subst p. particle_field s.
    pose proof (lcgrand_between (Nat.iter 3 lcg_next s) 1 (1 + sizedev L)) as [Hlo Hhi].
    rewrite E0 in *.
    assert (Z0 : Qabs (1 + 0 - 1) == 0) by reflexivity.
    rewrite Z0 in Hhi. lra. }
  split; [exact E1 |].
  intros r Hs. apply render_state_Some in Hs as (_ & Hlt & Hv & _ & Hsz & _).
  rewrite Hsz, E1.
  split; [ring |].
  intros Ha. rewrite Hv.
  pose proof (trapezoidalWave_unit (age r) (lifetime p) (conj Ha Hlt)). lra.
Qed.

(** X18: the lightness of a particle.  For an accent of lightness
    [l >= 0] every particle is given a whole lightness between the floor
    of [l / 2] and [l]: between 35 and 70 for the default accent. *)
Theorem lightness_range (env : Env) (size : Q * Q) (props : gmap string Css.value) (s : Z) :
  let L := locals env size props in
  let l := snd (accent L) in
  (0 <= l)%Z ->
  (Qfloor (inject_Z l * (1 # 2)) <= lightness (fst (particle L s)) <= l)%Z /\
  (getCSSVar props "--accent" = None -> l = 70%Z /\ Qfloor (inject_Z l * (1 # 2)) = 35%Z).
Proof.
  intros L l Hl.
  split.
  - particle_field s. fold l.
    pose proof (lcgrand_between (Nat.iter 4 lcg_next s) 0 1) as [Hlo Hhi].
    assert (Z1 : Qabs (1 - 0) == 1) by reflexivity. rewrite Z1 in Hhi.
    set (u := fst (lcgrand 0 1 (Nat.iter 4 lcg_next s))) in *.
    rewrite Zle_Qle in Hl. change (inject_Z 0) with 0 in Hl.
    unfold JS.Math_floor, lerp.
    split.
    + apply Qfloor_resp_le. nra.
    + apply Z.le_trans with (Qfloor (inject_Z l)).
      * apply Qfloor_resp_le. nra.
      * rewrite Qfloor_Z. lia.
  - intros Hnone. subst l L. cbn [accent locals]. unfold read_accent. rewrite Hnone.
    split; reflexivity.
Qed.

End Particles.

Section ParticleInstances.
Import Worklet.

Lemma low_ratio_unit_size_witness :
  size0 (fst (@particle Scenario.rational_math
                (locals {| IS_WORKLET := true; devicePixelRatio := 1 |} (300, 100) ∅)
                base_seed)) == 1.
Proof.
  destruct (@low_ratio_unit_size Scenario.rational_math
              {| IS_WORKLET := true; devicePixelRatio := 1 |} (300, 100) ∅ base_seed)
    as [E _].
  - apply Qle_bool_iff. reflexivity.
  - exact E.
Defined.

Lemma lightness_range_witness :
  (35 <= lightness Scenario.first_particle <= 70)%Z.
Proof.
  destruct (@lightness_range Scenario.rational_math Scenario.worklet_env (300, 100) ∅
              base_seed) as [Hr _].
  - vm_compute. discriminate.
  - exact Hr.
Defined.

End ParticleInstances.

(** ** Time in the worklet *)

Section Period.
Import Worklet.
Context `{HostMath}.

Lemma floor_unique q z : inject_Z z <= q -> q < inject_Z z + 1 -> Qfloor q = z.
Proof.
  intros Hlo Hhi.
  pose proof (Qfloor_le q) as Flo. pose proof (Qlt_floor q) as Fhi.
  rewrite inject_Z_plus in Fhi. change (inject_Z 1) with 1 in Fhi.
  assert (A : inject_Z (Qfloor q) < inject_Z (z + 1)).
  { rewrite inject_Z_plus. change (inject_Z 1) with 1. lra. }
  assert (B : inject_Z z < inject_Z (Qfloor q + 1)).
  { rewrite inject_Z_plus. change (inject_Z 1) with 1. lra. }
  rewrite <- Zlt_Qlt in A, B. lia.
Qed.

Lemma rem_of_nonneg x n : 0 < n -> 0 <= x -> JS.rem x n == x - n * inject_Z (Qfloor (x / n)).
Proof.
  intros Hn Hx. unfold JS.rem, JS.trunc.
  assert (Hq : 0 <= x / n) by (apply Qle_shift_div_l; lra).
  apply Qle_bool_iff in Hq. rewrite Hq. reflexivity.
Qed.

Lemma rem_period x n (k : Z) :
  0 < n -> 0 <= x -> (0 <= k)%Z -> JS.rem (x + inject_Z k * n) n == JS.rem x n.
Proof.
  intros Hn Hx Hk.
  rewrite Zle_Qle in Hk. change (inject_Z 0) with 0 in Hk.
  assert (Hkn : 0 <= inject_Z k * n) by nra.
  rewrite !rem_of_nonneg by lra.
  assert (Hq : 0 <= x / n) by (apply Qle_shift_div_l; lra).
  pose proof (Qfloor_le (x / n)) as Flo. pose proof (Qlt_floor (x / n)) as Fhi.
  rewrite inject_Z_plus in Fhi. change (inject_Z 1) with 1 in Fhi.
  assert (E : (x + inject_Z k * n) / n == x / n + inject_Z k) by (field; lra).
  assert (F : Qfloor ((x + inject_Z k * n) / n) = (Qfloor (x / n) + k)%Z).
  { apply floor_unique; rewrite E, inject_Z_plus; lra. }
  rewrite F, inject_Z_plus. ring.
Qed.

Lemma local_age_at w L p :
  local_age (Cases.at_worldt w L) p
  = JS.Math_min (lifetime p) (JS.rem (w + phase p) (lifetime p + respawn p)).
Proof. reflexivity. Qed.

(** X19: a particle repeats with its cycle.  For a particle whose cycle
    length, lifetime plus respawn gap, is positive and a clock at which
    clock plus phase is not negative, moving the clock forward by a whole
    number of cycles leaves the local age the same, and with it whether
    the particle is drawn or skipped. *)
Theorem particle_periodic (L : Locals) (p : Particle) (k : Z) :
  0 < lifetime p + respawn p ->
  0 <= worldt L + phase p ->
  (0 <= k)%Z ->
  let L' := Cases.at_worldt (worldt L + inject_Z k * (lifetime p + respawn p)) L in
  local_age L' p == local_age L p /\
  (render_state L' p = None <-> render_state L p = None).
Proof.
  intros Hc Hw Hk L'.
  assert (E : local_age L' p == local_age L p).
  { subst L'. rewrite local_age_at. unfold local_age, JS.Math_min.
    apply Q.min_compat; [reflexivity |].
    assert (S : worldt L + inject_Z k * (lifetime p + respawn p) + phase p
                == (worldt L + phase p) + inject_Z k * (lifetime p + respawn p)) by ring.
    assert (R : forall a b n, a == b -> JS.rem a n == JS.rem b n).
    { intros a b n Eab. unfold JS.rem, JS.trunc.
      assert (Ed : a / n == b / n) by (rewrite Eab; reflexivity).
      rewrite (Qleb_comp 0 0 (reflexivity 0) _ _ Ed).
      rewrite (Qfloor_comp _ _ Ed).
      assert (Ec : Qceiling (a / n) = Qceiling (b / n)).
      { unfold Qceiling. f_equal. apply Qfloor_comp. rewrite Ed. reflexivity. }
      rewrite Ec, Eab. reflexivity. }
    rewrite (R _ _ _ S). apply rem_period; assumption. }
  split; [exact E |].
  assert (G : JS.geb (local_age L' p) (lifetime p) = JS.geb (local_age L p) (lifetime p)).
  { unfold JS.geb. apply Qleb_comp; [reflexivity | exact E]. }
  unfold render_state. rewrite G.
  destruct (JS.geb (local_age L p) (lifetime p)).
  - split; reflexivity.
  - destruct (vecnorm (v0 p)), (v0 p). split; discriminate.
Qed.

End Period.

Section PeriodInstances.
Import Worklet.

Lemma particle_periodic_witness :
  local_age
    (Cases.at_worldt
       (worldt Scenario.bare_locals
        + inject_Z 3 * (lifetime Scenario.first_particle + respawn Scenario.first_particle))
       Scenario.bare_locals)
    Scenario.first_particle
  == local_age Scenario.bare_locals Scenario.first_particle.
Proof.
  destruct (@particle_periodic Scenario.rational_math Scenario.bare_locals
              Scenario.first_particle 3) as [E _].
  - vm_compute. reflexivity.
  - apply Qle_bool_iff. vm_compute. reflexivity.
  - lia.
  - exact E.
Defined.

End PeriodInstances.

(** ** What a paint puts on the canvas *)

Section Canvas.
Import Worklet.
Context `{HostMath}.

Lemma particle_ops_length L p :
  length (particle_ops L p) = 0%nat \/ length (particle_ops L p) = 2%nat.
Proof.
  unfold particle_ops.
  destruct (render_state L p) as [r |] eqn:E; [| left; reflexivity].
  apply render_state_Some in E as (_ & _ & _ & _ & _ & Hd).
  right. rewrite length_map, Hd.
  destruct (pos r) as [x y]. reflexivity.
Qed.

Lemma iteration_ops L s :
  snd (fst (iteration L s)) = particle_ops L (fst (fst (iteration L s))).
Proof.
  unfold iteration, bind, ret.
  destruct (particle L s) as [p s']. reflexivity.
Qed.

Lemma loop_ops L k :
  forall s, Forall (fun it => snd it = particle_ops L (fst it)) (fst (loop L k s)).
Proof.
  induction k as [| k IH]; intros s.
  - constructor.
  - rewrite loop_S. cbn [fst]. apply Forall_cons. split.
    + apply iteration_ops.
    + apply IH.
Qed.

Lemma ops_bound L (its : list (Particle * list Op)) :
  Forall (fun it => snd it = particle_ops L (fst it)) its ->
  (length (concat (map snd its)) <= 2 * length its)%nat.
Proof.
  induction 1 as [| it its Hit _ IH]; cbn [map concat length]; [lia |].
  rewrite length_app, Hit.
  destruct (particle_ops_length L (fst it)) as [E | E]; rewrite E; lia.
Qed.

Lemma iterations_cap L :
  n L = JS.Math_min 4000 ((width L * height L) / density L) ->
  (iterations L <= 4000)%nat.
Proof.
  intros En. unfold iterations. rewrite En. unfold JS.Math_min.
  pose proof (Qceiling_resp_le _ _ (Q.le_min_l 4000 ((width L * height L) / density L))) as Hc.
  change (Qceiling 4000) with 4000%Z in Hc. lia.
Qed.

(** X20: the cost of a paint is bounded.  A paint first clears the whole
    surface; it then runs at most 4000 iterations, each of which fills
    either nothing or exactly two shapes, so that it issues at most 8000
    fills; and a surface whose area is not positive gets the clear and
    nothing else. *)
Theorem paint_bounded (env : Env) (size : Q * Q) (props : gmap string Css.value) :
  let L := locals env size props in
  (exists fills,
     paint env size props = ClearRect 0 0 (fst size) (snd size) :: fills /\
     (length fills <= 2 * 4000)%nat) /\
  (length (paint_trace env size props) <= 4000)%nat /\
  Forall (fun it => length (snd it) = 0%nat \/ length (snd it) = 2%nat)
         (paint_trace env size props) /\
  (width L * height L <= 0 -> paint env size props = [ClearRect 0 0 (fst size) (snd size)]).
Proof.
  intros L.
  pose proof (iterations_cap L eq_refl) as Hcap.
  pose proof (loop_ops L (iterations L) base_seed) as Hops.
  pose proof (loop_length L (iterations L) base_seed) as Hlen.
  assert (Ht : paint_trace env size props = fst (loop L (iterations L) base_seed))
    by reflexivity.
  split.
  { eexists. split; [reflexivity |].
    rewrite Ht. pose proof (ops_bound L _ Hops) as Hb. lia. }
  split; [rewrite Ht, Hlen; exact Hcap |].
  split.
  { rewrite Ht. eapply Forall_impl; [exact Hops |].
    intros it Eit. cbn beta in Eit. rewrite Eit. apply particle_ops_length. }
  intros Harea.
  assert (Hz : iterations L = 0%nat).
  { unfold iterations.
    assert (Hn : n L <= 0).
    { change (n L) with (Qmin 4000 ((width L * height L) / 6)).
      pose proof (Q.le_min_r 4000 ((width L * height L) / 6)) as Hm.
      assert (Hd : (width L * height L) / 6 <= 0).
      { apply Qle_shift_div_r; [reflexivity | lra]. }
      lra. }
    pose proof (Qceiling_resp_le _ _ Hn) as Hc.
    change (Qceiling 0) with 0%Z in Hc. lia. }
  unfold paint. rewrite Ht, Hz. reflexivity.
Qed.

Lemma round_percent a : 0 <= a <= 1 -> (0 <= JS.Math_round (a * 100) <= 100)%Z.
Proof.
  intros [H0 H1]. unfold JS.Math_round. split.
  - change 0%Z with (Qfloor 0). apply Qfloor_resp_le. lra.
  - apply Z.le_trans with (Qfloor (100 + (1 # 2))).
    + apply Qfloor_resp_le. lra.
    + vm_compute. discriminate.
Qed.

(** X21: what a drawn particle looks like.  For a particle whose local
    age is not negative, every operation of its iteration is a fill whose
    opacity is a whole percentage between 0 and 100, whose lightness is
    the particle's and whose hue and saturation are the accent's; the two
    fills of a particle differ in position only. *)
Theorem particle_fills (L : Locals) (p : Particle) (op : Op) :
  0 <= local_age L p ->
  In op (particle_ops L p) ->
  exists f,
    op = FillPath f /\
    (0 <= alpha_percent f <= 100)%Z /\
    alpha_percent f = JS.Math_round ((1 - local_age L p / lifetime p) * 100) /\
    light f = lightness p /\
    hue f = fst (fst (accent L)) /\ saturation f = snd (fst (accent L)).
Proof.
  intros Hage Hin. unfold particle_ops in Hin.
  destruct (render_state L p) as [r |] eqn:E; [| contradiction].
  apply render_state_Some in E as (Ha & Hlt & _ & Hal & _).
  apply in_map_iff in Hin as ([wx wy] & <- & _).
  eexists. split; [reflexivity |]. cbn [alpha_percent light hue saturation].
  rewrite Hal, Ha.
  split; [| repeat split].
  apply round_percent. apply alpha_unit. rewrite <- Ha. split; [rewrite Ha; exact Hage | exact Hlt].
Qed.

End Canvas.

Section CanvasInstances.
Import Worklet.

Lemma particle_fills_witness :
  exists op f,
    In op (@particle_ops Scenario.rational_math Scenario.bare_locals Scenario.first_particle) /\
    op = FillPath f /\ (0 <= alpha_percent f <= 100)%Z.
Proof.
  destruct (@particle_ops Scenario.rational_math Scenario.bare_locals Scenario.first_particle)
    as [| op rest] eqn:E.
  - exfalso. vm_compute in E. discriminate E.
  - assert (Hin : In op (@particle_ops Scenario.rational_math Scenario.bare_locals
                           Scenario.first_particle)) by (rewrite E; left; reflexivity).
    destruct (@particle_fills Scenario.rational_math Scenario.bare_locals
                Scenario.first_particle op) as (f & Ef & Hp & _).
    + apply Qle_bool_iff. vm_compute. reflexivity.
    + exact Hin.
    + exists op, f. rewrite <- E. split; [exact Hin |]. split; [exact Ef | exact Hp].
Defined.

End CanvasInstances.

(** ** The generator's states *)

Section States.
Import Worklet.

Lemma ToInt32_of_mod z z' :
  (z mod 2 ^ 32 = z' mod 2 ^ 32)%Z -> JS.ToInt32 z = JS.ToInt32 z'.
Proof.
  intros E. unfold JS.ToInt32.
  rewrite <- (Z.add_mod_idemp_l z), <- (Z.add_mod_idemp_l z'), E by lia.
  reflexivity.
Qed.

Lemma ToInt32_to_mod z z' :
  JS.ToInt32 z = JS.ToInt32 z' -> (z mod 2 ^ 32 = z' mod 2 ^ 32)%Z.
Proof.
  intros E. rewrite <- (ToInt32_congruent z), <- (ToInt32_congruent z'), E. reflexivity.
Qed.

Lemma times_multiplier_mod s s' :
  ((214013 * s) mod 2 ^ 32 = (214013 * s') mod 2 ^ 32)%Z <->
  (s mod 2 ^ 32 = s' mod 2 ^ 32)%Z.
Proof.
  split; intros E.
  - assert (I : forall x, (x mod 2 ^ 32 = (3115528533 * ((214013 * x) mod 2 ^ 32)) mod 2 ^ 32)%Z).
    { intros x. rewrite Z.mul_mod_idemp_r by lia.
      replace (3115528533 * (214013 * x))%Z with (x + 155243 * x * 2 ^ 32)%Z by lia.
      rewrite Z.mod_add by lia. reflexivity. }
    rewrite (I s), (I s'), E. reflexivity.
  - rewrite (Z.mul_mod 214013 s), (Z.mul_mod 214013 s'), E by lia. reflexivity.
Qed.

(** X22: the generator's states.  Only the low 32 bits of a seed matter:
    two seeds that agree modulo 2^32 give the same draws and the same next
    state; conversely two seeds that differ modulo 2^32 have different
    next states, so that distinct states never merge; and the state after
    a draw lies within 2531011 of the signed 32-bit range. *)
Theorem generator_states (s s' : Z) :
  (lcg_next s = lcg_next s' <-> (s mod 2 ^ 32 = s' mod 2 ^ 32)%Z) /\
  ((s mod 2 ^ 32 = s' mod 2 ^ 32)%Z -> forall a b, lcgrand a b s = lcgrand a b s') /\
  (- 2 ^ 31 + 2531011 <= lcg_next s < 2 ^ 31 + 2531011)%Z.
Proof.
  assert (N : lcg_next s = lcg_next s' <-> (s mod 2 ^ 32 = s' mod 2 ^ 32)%Z).
  { unfold lcg_next, JS.Math_imul. rewrite <- times_multiplier_mod. split; intros E.
    - apply ToInt32_to_mod. lia.
    - rewrite (ToInt32_of_mod _ _ E). reflexivity. }
  split; [exact N |].
  split.
  - intros E a b. apply N in E. unfold lcgrand. rewrite E. reflexivity.
  - unfold lcg_next, JS.Math_imul.
    pose proof (ToInt32_range (214013 * s)). lia.
Qed.

End States.

(** ** Revealing with a fade, and the forced fallback *)

Section Fade.
Import Controller.

Ltac fields :=
  cbn [maxFPS forceFallback_ wasDestroyed isHidden _fadeDuration _t t0 _tstop raf observer
       style next_handle pending
       with_maxFPS with_forceFallback with_wasDestroyed with_isHidden with_fadeDuration
       with_t with_t0 with_tstop with_raf with_observer with_style with_frames
       setProperty removeProperty set_tstop set_t set_fadeDuration
       requestAnimationFrame cancelAnimationFrame useBackgroundStyle].

Ltac lookups :=
  repeat first
    [ rewrite lookup_insert_eq
    | rewrite lookup_delete_eq
    | rewrite lookup_insert_ne by discriminate
    | rewrite lookup_delete_ne by discriminate ].

Lemma shouldStop_within st ts :
  _tstop st = Some ts -> _t st <= ts + _fadeDuration st -> shouldStop st = false.
Proof.
  intros Ht Hw. unfold shouldStop. rewrite Ht.
  apply gtb_le in Hw. rewrite Hw. apply andb_false_r.
Qed.

Lemma fade_requests now st ts :
  wasDestroyed st = false ->
  0 < maxFPS st ->
  _tstop st = Some ts ->
  _t st <= ts + _fadeDuration st ->
  pending (frame now st) = pending st ++ [next_handle st] /\
  raf (frame now st) = Some (next_handle st).
Proof.
  intros Hd Hr Ht Hw.
  apply frame_requests; [exact Hd | exact Hr |].
  apply (shouldStop_within st ts Ht Hw).
Qed.

(** X23: the fade is never cut short.  For a live controller with a
    positive rate whose clock has not passed StopMark + FadeDuration,
    every frame requests the next one. *)
Theorem fade_not_cut_short (now : Q) (st : State) (ts : Q) :
  wasDestroyed st = false ->
  0 < maxFPS st ->
  _tstop st = Some ts ->
  _t st <= ts + _fadeDuration st ->
  pending (frame now st) = pending st ++ [next_handle st] /\
  raf (frame now st) = Some (next_handle st).
Proof.
  intros Hd Hr Ht Hw.
  apply (fade_requests now st ts); assumption.
Qed.

Lemma fade_not_cut_short_witness :
  pending (frame 600 Scenario.revealing)
    = pending Scenario.revealing ++ [next_handle Scenario.revealing].
Proof.
  destruct (fade_not_cut_short 600 Scenario.revealing (_t Scenario.running)) as [Hq _].
  - vm_compute. reflexivity.
  - vm_compute. reflexivity.
  - vm_compute. reflexivity.
  - apply Qle_bool_iff. vm_compute. reflexivity.
  - exact Hq.
Defined.

(** X24: a reveal with a fade keeps the animation going.  On the paint
    path, when the fade duration that [reveal] computes is positive,
    [reveal] marks the content shown, takes the clock value as StopMark
    and publishes it together with the fade, and touches neither the
    clock nor the outstanding frame request; for a live controller with a
    positive rate the next frame then requests another one. *)
Theorem reveal_with_animation (host : Host) (animate : option NumOrBool) (st : State) :
  isCSSHoudiniSupported host = true ->
  forceFallback_ st = false ->
  0 < parseFadeDuration host (default (IsBool true) animate) ->
  let s := reveal host animate st in
  isHidden s = false /\
  raf s = raf st /\ pending s = pending st /\ _t s = _t st /\ t0 s = t0 st /\
  _tstop s = Some (_t st) /\
  style s !! "--t-stop"%string = Some (Css.Fixed3 (JS.toFixed3 (_t st))) /\
  style s !! "--fade"%string =
    Some (Css.Seconds (parseFadeDuration host (default (IsBool true) animate))) /\
  (wasDestroyed st = false -> 0 < maxFPS st ->
   forall now, pending (frame now s) = pending st ++ [next_handle st]).
Proof.
  intros Hh Hf Hd s.
  assert (E : s = set_tstop (Some (_t st))
                    (set_fadeDuration (parseFadeDuration host (default (IsBool true) animate))
                       (with_isHidden false st))).
  { subst s. unfold reveal. cbn [forceFallback_ with_isHidden].
    rewrite Hh, Hf. cbn [negb orb].
    pose proof Hd as Hd'. apply leb_gt in Hd'. rewrite Hd'. reflexivity. }
  split; [rewrite E; reflexivity |].
  split; [rewrite E; reflexivity |].
  split; [rewrite E; reflexivity |].
  split; [rewrite E; reflexivity |].
  split; [rewrite E; reflexivity |].
  split; [rewrite E; reflexivity |].
  split; [rewrite E; fields; lookups; reflexivity |].
  split; [rewrite E; fields; lookups; reflexivity |].
  intros Hl Hr now.
  destruct (fade_requests now s (_t st)) as [Hq _].
  - rewrite E. exact Hl.
  - rewrite E. exact Hr.
  - rewrite E. reflexivity.
  - rewrite E. fields. lra.
  - rewrite Hq, E. reflexivity.
Qed.

Lemma reveal_with_animation_witness :
  _tstop (reveal Scenario.page (Some (IsNum 1)) Scenario.running)
    = Some (_t Scenario.running) /\
  pending (reveal Scenario.page (Some (IsNum 1)) Scenario.running)
    = pending Scenario.running.
Proof.
  destruct (reveal_with_animation Scenario.page (Some (IsNum 1)) Scenario.running)
    as (_ & _ & Hp & _ & _ & Hs & _).
  - reflexivity.
  - vm_compute. reflexivity.
  - vm_compute. reflexivity.
  - split; [exact Hs | exact Hp].
Defined.

(** X25: a forced fallback lasts.  Without the paint API, or when
    [update] is given [forceFallback], [update] on a live controller
    writes the [--fallback] property and nothing else to the style, the
    given text or [initial] when the option is [false] or empty, and
    records the choice; a later [hide] then only sets the background to
    [var(--fallback)] and requests no frame, even on a page that has the
    paint API. *)
Theorem forced_fallback_lasts (host : Host) (layout : Layout) (o : Options)
    (animate : option NumOrBool) (now : Q) (st : State) :
  wasDestroyed st = false ->
  negb (isCSSHoudiniSupported host) || default false (forceFallback o) = true ->
  exists st1 text,
    update host layout o st = Ok st1 /\
    style st1 = <["--fallback"%string := Css.Keyword text]> (style st) /\
    text = match default DEFAULT_fallback (fallback o) with
           | FallbackText s => if String.eqb s "" then "initial"%string else s
           | FallbackFalse => "initial"%string
           end /\
    let s := hide host animate now st1 in
    style s = <["background"%string := Css.Keyword "var(--fallback)"]> (style st1) /\
    isHidden s = true /\
    pending s = pending st /\ raf s = raf st /\ _t s = _t st.
Proof.
  intros Hd Hp.
  assert (E : update host layout o st =
              Ok (setProperty "--fallback"
                    (match default DEFAULT_fallback (fallback o) with
                     | FallbackText s =>
                         if String.eqb s "" then Css.Keyword "initial" else Css.Keyword s
                     | FallbackFalse => Css.Keyword "initial"
                     end)
                    (with_forceFallback (default false (forceFallback o))
                       (with_maxFPS (if prefersReducedMotion host then 0
                                     else default DEFAULT_fps (fps o)) st)))).
  { unfold update. rewrite Hd, Hp. reflexivity. }
  rewrite E.
  eexists. exists (match default DEFAULT_fallback (fallback o) with
                   | FallbackText s => if String.eqb s "" then "initial"%string else s
                   | FallbackFalse => "initial"%string
                   end).
  split; [reflexivity |].
  split.
  { fields. destruct (default DEFAULT_fallback (fallback o)) as [t |];
      [destruct (String.eqb t "") |]; reflexivity. }
  split; [reflexivity |].
  unfold hide. cbn [forceFallback_ with_isHidden with_forceFallback setProperty with_style].
  assert (Hp' : negb (isCSSHoudiniSupported host) || default false (forceFallback o) = true)
    by exact Hp.
  rewrite Hp'. fields. repeat split.
Qed.

Lemma forced_fallback_lasts_witness :
  exists st1 text,
    update Cases.legacy_page Scenario.block_300x100 no_options (fresh ∅ 1 []) = Ok st1 /\
    style st1 = <["--fallback"%string := Css.Keyword text]> (style (fresh ∅ 1 [])) /\
    text = "black"%string.
Proof.
  destruct (forced_fallback_lasts Cases.legacy_page Scenario.block_300x100 no_options
              None 0 (fresh ∅ 1 [])) as (st1 & text & E & Hs & Ht & _).
  - reflexivity.
  - reflexivity.
  - exists st1, text. split; [exact E |]. split; [exact Hs | exact Ht].
Defined.

End Fade.

(** ** Short-lived particles *)

Section ShortLived.
Import Worklet.
Context `{HostMath}.

(** X26: a short-lived particle never reaches full size.  For a drawn
    particle whose lifetime is below 0.7, the fade-out of the envelope
    starts before the ramp has ended: from age 0.2 on the envelope is
    [(lifetime - age) / 0.5], strictly below 1, so that the particle is
    strictly smaller than its initial size. *)
Theorem short_lived_envelope (L : Locals) (p : Particle) (r : RenderState) :
  render_state L p = Some r ->
  lifetime p < 7 # 10 ->
  1 # 5 <= age r ->
  0 < size0 p ->
  visibility r == (lifetime p - age r) / (1 # 2) /\
  0 < visibility r < 1 /\
  Worklet.size r < size0 p.
Proof.
  intros Hr Hl Ha Hs.
  apply render_state_Some in Hr as (_ & Hlt & Hv & _ & Hsz & _).
  assert (E : visibility r == (lifetime p - age r) / (1 # 2)).
  { rewrite Hv. apply trapezoidalWave_fade; lra. }
  assert (E2 : (lifetime p - age r) / (1 # 2) == 2 * (lifetime p - age r))
    by (field; discriminate).
  split; [exact E |].
  assert (B : 0 < visibility r < 1) by (rewrite E, E2; split; lra).
  split; [exact B |].
  rewrite Hsz. nra.
Qed.

End ShortLived.

Section ShortLivedInstances.
Import Worklet.

Lemma short_lived_envelope_witness :
  exists r,
    @render_state Scenario.rational_math (Cases.at_worldt (1 # 10) Scenario.bare_locals)
      Scenario.first_particle = Some r /\
    0 < visibility r < 1.
Proof.
  destruct (@render_state Scenario.rational_math (Cases.at_worldt (1 # 10) Scenario.bare_locals)
              Scenario.first_particle) as [r |] eqn:E.
  - exists r. split; [reflexivity |].
    destruct (@short_lived_envelope Scenario.rational_math _ _ r E) as (_ & B & _).
    + vm_compute. reflexivity.
    + vm_compute in E. injection E as <-. apply Qle_bool_iff. vm_compute. reflexivity.
    + vm_compute. reflexivity.
    + exact B.
  - exfalso. vm_compute in E. discriminate E.
Defined.

End ShortLivedInstances.
